(** * Verification of scripts/extract_names.py

    A shallow embedding of the index builder: the record loader
    ([load_users]), the name bucketer ([bucket_by_letter]), the index
    writer ([write_indexes]) and the tag aggregator and ranker
    ([compute_popular_tags]).

    Python strings are sequences of Unicode code points, dictionaries keep
    their insertion order, and exceptions are values of an error monad. *)

From Stdlib Require Import ZArith NArith List Ascii String Lia Bool.
From stdpp Require Import base option list sorting gmap.

Open Scope list_scope.
Open Scope Z_scope.

(** ** Python strings *)

(** A [str] is a list of code points. *)
Abbreviation str := (list N).

(** Reads a literal: every character of the literal is one code point. *)
Definition lit (s : string) : str := map N_of_ascii (list_ascii_of_string s).

Definition is_ascii (c : N) : bool := (c <? 128)%N.

Definition ascii_upper (c : N) : N :=
  if ((97 <=? c) && (c <=? 122))%N then (c - 32)%N else c.

Definition ascii_lower (c : N) : N :=
  if ((65 <=? c) && (c <=? 90))%N then (c + 32)%N else c.

Definition ascii_isdigit (c : N) : bool := ((48 <=? c) && (c <=? 57))%N.

(** The code points [str.strip()] removes: those for which the interpreter's
    whitespace test holds. *)
Definition isspace (c : N) : bool :=
  (((9 <=? c) && (c <=? 13)) || ((28 <=? c) && (c <=? 32))
   || (c =? 133) || (c =? 160) || (c =? 5760)
   || ((8192 <=? c) && (c <=? 8202))
   || (c =? 8232) || (c =? 8233) || (c =? 8239) || (c =? 8287)
   || (c =? 12288))%N.

(** The interpreter's tables that the script consults and that are not part
    of the script: the case mappings of text that is not pure ASCII (they
    may change the length of the text and depend on the context of a
    character), the digit property of non-ASCII code points, and the
    integer reading of a text by [int()]. *)
Record Runtime := {
  unicode_upper : str -> str;
  unicode_lower : str -> str;
  unicode_isdigit : N -> bool;
  int_of_text : str -> option Z
}.

(** A runtime that leaves non-ASCII text alone and reads no text as an
    integer; it is used to run the model on ASCII inputs, where the tables
    are not consulted. *)
Definition plain_runtime : Runtime :=
  {| unicode_upper := fun s => s;
     unicode_lower := fun s => s;
     unicode_isdigit := fun _ => false;
     int_of_text := fun _ => None |}.

Section Strings.
Variable rt : Runtime.

(** [s.upper()]: pure ASCII text is mapped character by character. *)
Definition upper (s : str) : str :=
  if forallb is_ascii s then map ascii_upper s else unicode_upper rt s.

(** [s.lower()] *)
Definition lower (s : str) : str :=
  if forallb is_ascii s then map ascii_lower s else unicode_lower rt s.

(** [c.isdigit()] for one code point. *)
Definition cp_isdigit (c : N) : bool :=
  if is_ascii c then ascii_isdigit c else unicode_isdigit rt c.

(** [s.isdigit()]: at least one character, and all of them digits. *)
Definition isdigit (s : str) : bool :=
  match s with
  | [] => false
  | _ => forallb cp_isdigit s
  end.
End Strings.

Fixpoint lstrip (s : str) : str :=
  match s with
  | [] => []
  | c :: s' => if isspace c then lstrip s' else s
  end.

Definition rstrip (s : str) : str := rev (lstrip (rev s)).

(** [s.strip()] *)
Definition strip (s : str) : str := rstrip (lstrip s).

(** [s.startswith(p)] *)
Fixpoint startswith (s p : str) : bool :=
  match p, s with
  | [], _ => true
  | _ :: _, [] => false
  | a :: p', b :: s' => (a =? b)%N && startswith s' p'
  end.

(** [s.endswith(p)] *)
Definition endswith (s p : str) : bool := startswith (rev s) (rev p).

(** [s.split(sep)] for a one-character separator: the pieces between the
    separators, at least one piece. *)
Fixpoint split_on (sep : N) (s : str) : list str :=
  match s with
  | [] => [[]]
  | c :: s' =>
      if (c =? sep)%N then [] :: split_on sep s'
      else match split_on sep s' with
           | [] => [[c]]
           | p :: ps => (c :: p) :: ps
           end
  end.

Definition comma : N := 44%N.

(** Truth value of a string: [if s:] *)
Definition truthy (s : str) : bool :=
  match s with [] => false | _ => true end.

(** Comparison of strings, as Python compares them: lexicographic on the
    code points. *)
Fixpoint str_ltb (a b : str) : bool :=
  match a, b with
  | _, [] => false
  | [], _ :: _ => true
  | x :: a', y :: b' => (x <? y)%N || ((x =? y)%N && str_ltb a' b')
  end.

(** ** Exceptions *)

(** The exceptions the script can meet; all of them are subclasses of
    [Exception]. [OSError], [UnicodeDecodeError] and [JSONDecodeError] come
    from opening, decoding and parsing a file. *)
Inductive exn : Type :=
  | AttributeError | TypeError | ValueError | OverflowError
  | OSError | UnicodeDecodeError | JSONDecodeError.

Inductive result (A : Type) : Type :=
  | Ok (a : A)
  | Raise (e : exn).
Arguments Ok {A} a.
Arguments Raise {A} e.

(** Sequencing: an exception of the first statement skips the rest. *)
#[global] Instance result_bind : MBind result := fun A B k m =>
  match m with
  | Ok a => k a
  | Raise e => Raise e
  end.

(** [try: body except Exception as e: handler] *)
Definition try_except {A} (body : result A) (handler : exn -> result A)
  : result A :=
  match body with
  | Ok a => Ok a
  | Raise e => handler e
  end.

(** A [for] loop whose body may raise: the first exception ends the loop. *)
Fixpoint for_each {A S} (body : S -> A -> result S) (l : list A) (s : S)
  : result S :=
  match l with
  | [] => Ok s
  | x :: l' => s' ← body s x; for_each body l' s'
  end.

(** ** JSON documents and dictionaries *)

(** What [json.load] can return. A float is kept as its literal. An object
    is kept as the members of the document, in document order. *)
#[warnings="-register-all"] Inductive json : Type :=
  | JNull
  | JBool (b : bool)
  | JInt (z : Z)
  | JFloat (literal : str)
  | JStr (s : str)
  | JArr (items : list json)
  | JObj (members : list (str * json)).

(** A Python [dict] with string keys: the items in insertion order. *)
Abbreviation pydict V := (list (str * V)).

Section Dict.
Context {V : Type}.

(** [d.get(k)] *)
Fixpoint dict_get (d : pydict V) (k : str) : option V :=
  match d with
  | [] => None
  | (k', v) :: d' => if decide (k' = k) then Some v else dict_get d' k
  end.

(** [d.get(k, default)] *)
Definition dict_get_default (d : pydict V) (k : str) (default : V) : V :=
  match dict_get d k with
  | Some v => v
  | None => default
  end.

(** [d[k] = v]: a present key keeps its place, a new key goes last. *)
Fixpoint dict_set (d : pydict V) (k : str) (v : V) : pydict V :=
  match d with
  | [] => [(k, v)]
  | (k', v') :: d' =>
      if decide (k' = k) then (k', v) :: d' else (k', v') :: dict_set d' k v
  end.

(** The dictionary the parser builds from the members of an object: a
    repeated key keeps its last value. *)
Definition dict_of_members (ms : list (str * V)) : pydict V :=
  fold_left (fun d kv => dict_set d (fst kv) (snd kv)) ms [].

(** The invariant of a dictionary: no key occurs twice. *)
Definition dict_wf (d : pydict V) : Prop := NoDup (map fst d).
End Dict.

(** Attribute access [data.get] and [data.items]: only a [dict] has them. *)
Definition as_dict (data : json) : result (pydict json) :=
  match data with
  | JObj ms => Ok (dict_of_members ms)
  | _ => Raise AttributeError
  end.

(** ** The record store *)

(** A directory: the file names as [os.listdir] enumerates them, each with
    the outcome of opening the file and parsing it with [json.load]. [None]
    is a path that does not exist. The listing itself is taken to succeed,
    and the diagnostics the script prints are left out. *)
Abbreviation directory := (list (str * result json)).
Abbreviation store := (option directory).

(** ** Record loader *)

Section Loader.
Variable rt : Runtime.

(** [fname.lower().endswith(".json")] *)
Definition is_json_file (fname : str) : bool :=
  endswith (lower rt fname) (lit ".json").

(** [fname[:-5]] *)
Definition uid_of (fname : str) : str := take (length fname - 5) fname.

(** [data.get("name", "").strip()] *)
Definition record_name (data : json) : result str :=
  d ← as_dict data;
  match dict_get_default d (lit "name") (JStr []) with
  | JStr s => Ok (strip s)
  | _ => Raise AttributeError
  end.

(** The body of the [try] of the loader: the pairs after this file. *)
Definition load_record (pairs : list (str * str)) (uid : str)
    (content : result json) : result (list (str * str)) :=
  data ← content;
  name ← record_name data;
  Ok (if truthy name then pairs ++ [(name, uid)] else pairs).

(** One turn of the loop over the files. *)
Definition load_file (pairs : list (str * str)) (file : str * result json)
  : result (list (str * str)) :=
  let (fname, content) := file in
  if negb (is_json_file fname) then Ok pairs
  else
    let uid := uid_of fname in
    try_except (load_record pairs uid content) (fun _ => Ok pairs).

Definition load_users (path : store) : result (list (str * str)) :=
  match path with
  | None => Ok []
  | Some files => for_each load_file files []
  end.
End Loader.

(** ** Name bucketer *)

(** [string.ascii_uppercase], as the keys it yields: one-letter strings. *)
Definition ascii_uppercase : list str :=
  map (fun c => [c]) (lit "ABCDEFGHIJKLMNOPQRSTUVWXYZ").

(** [DIGITS = [str(d) for d in range(10)]] *)
Definition DIGITS : list str :=
  map (fun d => [(48 + N.of_nat d)%N]) (seq 0 10).

(** The bucket keys, in the order the writer visits them. *)
Definition bucket_keys : list str := ascii_uppercase ++ DIGITS.

Abbreviation bucket := (gmap str str).
Abbreviation buckets := (gmap str (gmap str str)).

(** The dictionary before the loop over the pairs: a comprehension over the
    letters, then one assignment per digit. *)
Definition initial_buckets : buckets :=
  fold_left (fun b d => <[d := ∅]> b) DIGITS
    (fold_left (fun b L => <[L := ∅]> b) ascii_uppercase ∅).

Section Bucketer.
Variable rt : Runtime.

(** [name[0].upper()], for a name that is not empty. *)
Definition first_of (name : str) : str := upper rt (take 1 name).

(** One turn of the loop over the pairs. *)
Definition bucket_pair (bs : buckets) (p : str * str) : buckets :=
  let (name, uid) := p in
  if negb (truthy name) then bs
  else
    let first := first_of name in
    match bs !! first with
    | Some b => <[first := <[name := uid]> b]> bs
    | None => bs
    end.

Definition bucket_by_letter (pairs : list (str * str)) : buckets :=
  fold_left bucket_pair pairs initial_buckets.
End Bucketer.

(** ** Index writer *)

(** The files [write_indexes] writes into [OUT_DIR], in order: the name of
    each file and the mapping dumped into it. *)
Definition write_indexes (bs : buckets) : list (str * bucket) :=
  map (fun letter => (letter ++ lit ".json", default ∅ (bs !! letter)))
      bucket_keys.

(** ** Tag aggregator *)

(** A [Counter]: a dictionary from tags to counts. *)
Abbreviation counter := (pydict Z).

Section Aggregator.
Variable rt : Runtime.

(** The candidates of the [tags] field: [data.get("tags", [])], then the
    [isinstance] cascade. *)
Definition tags_field_items (d : pydict json) : list str :=
  match dict_get_default d (lit "tags") (JArr []) with
  | JArr ts =>
      flat_map (fun t => match t with JStr s => [s] | _ => [] end) ts
  | JStr s => map strip (split_on comma s)
  | _ => []
  end.

(** [kl.startswith('tag') and kl[3:].isdigit()] with [kl = str(k).lower()] *)
Definition is_tag_key (k : str) : bool :=
  let kl := lower rt k in
  startswith kl (lit "tag") && isdigit rt (drop 3 kl).

(** One turn of the loop over [data.items()]. *)
Definition collect_key (items : list str) (kv : str * json) : list str :=
  let (k, v) := kv in
  match v with
  | JStr s => if is_tag_key k then items ++ [s] else items
  | _ => items
  end.

(** The list [items] of one record when the counting loop starts. *)
Definition record_items (d : pydict json) : list str :=
  fold_left collect_key d (tags_field_items d).

(** [t.strip().lower()] *)
Definition normalize (t : str) : str := lower rt (strip t).

(** One turn of the counting loop: [counter[t_norm] += 1], a missing tag
    counting as 0. *)
Definition count_tag (c : counter) (t : str) : counter :=
  let t_norm := normalize t in
  if truthy t_norm
  then dict_set c t_norm (dict_get_default c t_norm 0 + 1)
  else c.

(** One turn of the loop over the files. Only the opening and parsing sit
    inside the [try]; the attribute access [data.get] comes after it. *)
Definition count_file (c : counter) (file : str * result json)
  : result counter :=
  match snd file with
  | Raise _ => Ok c
  | Ok data =>
      d ← as_dict data;
      Ok (fold_left count_tag (record_items d) c)
  end.

(** The counter after the loop over the [.json] files of a directory. *)
Definition count_tags (files : directory) : result counter :=
  for_each count_file
    (List.filter (fun file => is_json_file rt (fst file)) files) [].
End Aggregator.

(** ** Tag ranker *)

(** The values the caller may pass as [limit]. A float is given by the
    outcome of truncating it, which fails on nan and the infinities. *)
Inductive pyvalue : Type :=
  | PInt (z : Z)
  | PBool (b : bool)
  | PFloat (truncated : result Z)
  | PStr (s : str)
  | PNone.

(** [int(v)] *)
Definition py_int (rt : Runtime) (v : pyvalue) : result Z :=
  match v with
  | PInt z => Ok z
  | PBool b => Ok (if b then 1 else 0)
  | PFloat t => t
  | PStr s =>
      match int_of_text rt s with
      | Some z => Ok z
      | None => Raise ValueError
      end
  | PNone => Raise TypeError
  end.

(** Comparison of the sort keys, which are tuples [(int, str)]: the first
    components decide unless they are equal. *)
Definition tuple_ltb (a b : Z * str) : bool :=
  if fst a =? fst b then str_ltb (snd a) (snd b) else fst a <? fst b.

(** [lambda kv: (-kv[1], kv[0])] *)
Definition sort_key (kv : str * Z) : Z * str := (- snd kv, fst kv).

Section Sorted.
Context {A : Type} (key : A -> Z * str).

(** Stable insertion: [x] goes before the first element whose key is not
    smaller than its own. *)
Fixpoint insert_sorted (x : A) (l : list A) : list A :=
  match l with
  | [] => [x]
  | y :: l' =>
      if tuple_ltb (key y) (key x) then y :: insert_sorted x l'
      else x :: y :: l'
  end.

(** [sorted(l, key=key)]: a stable sort by key. *)
Definition sorted (l : list A) : list A := foldr insert_sorted [] l.
End Sorted.

(** The part of [compute_popular_tags] after the loop over the files. *)
Definition rank (rt : Runtime) (c : counter) (limit : pyvalue)
  : result (list str) :=
  match c with
  | [] => Ok []
  | _ =>
      let items_sorted := sorted sort_key c in
      n ← py_int rt limit;
      Ok (map fst (take (Z.to_nat (Z.max 0 n)) items_sorted))
  end.

Definition compute_popular_tags (rt : Runtime) (path : store)
    (limit : pyvalue) : result (list str) :=
  match path with
  | None => Ok []
  | Some files =>
      c ← count_tags rt files;
      rank rt c limit
  end.

(** [POPULAR_TAG_LIMIT] *)
Definition POPULAR_TAG_LIMIT : pyvalue := PInt 200.

(** ** What one file adds to the loaded pairs *)

(** The pairs the loader gains from one file: those the body of its [try]
    appends when it completes, none when the file is not a [.json] file or
    the body raises. *)
Definition contribution (rt : Runtime) (file : str * result json)
  : list (str * str) :=
  if is_json_file rt (fst file)
  then match load_record [] (uid_of (fst file)) (snd file) with
       | Ok new => new
       | Raise _ => []
       end
  else [].

(** ** Reading the buckets *)

(** [buckets[k].get(name)], when [k] is a key of [buckets]. *)
Definition bucket_lookup (bs : buckets) (k name : str) : option str :=
  b ← bs !! k; b !! name.

(** The ASCII code points that are a letter of either case or a digit. *)
Definition ascii_alnum (c : N) : bool :=
  (((65 <=? c) && (c <=? 90)) || ((97 <=? c) && (c <=? 122))
   || ((48 <=? c) && (c <=? 57)))%N.

(** ** The tag candidates, in the words of the specification *)

(** The elements of a list that are strings. *)
Definition string_elements (ts : list json) : list str :=
  flat_map (fun t => match t with JStr s => [s] | _ => [] end) ts.

(** The candidates of the aggregated field [tags]: the string elements of
    a list, or the trimmed comma-separated pieces of a string. *)
Definition aggregated_candidates (d : pydict json) : list str :=
  match dict_get d (lit "tags") with
  | Some (JArr ts) => string_elements ts
  | Some (JStr s) => map strip (split_on comma s)
  | _ => []
  end.

(** A key that, lowercased, is "tag" followed by one or more digits. *)
Definition numbered_key (rt : Runtime) (k : str) : Prop :=
  ∃ digits, lower rt k = lit "tag" ++ digits
            ∧ digits ≠ []
            ∧ Forall (fun c => cp_isdigit rt c = true) digits.

(** The string values of the fields with a numbered key, in the order of
    the fields. *)
Definition numbered_candidates (rt : Runtime) (d : pydict json) : list str :=
  flat_map (fun kv => match snd kv with
                      | JStr s => if is_tag_key rt (fst kv) then [s] else []
                      | _ => []
                      end) d.

(** The candidates after normalization, the empty ones discarded. *)
Definition surviving_tags (rt : Runtime) (items : list str) : list str :=
  List.filter truthy (map (normalize rt) items).

(** How often [t] occurs in [l]. *)
Definition occurrences (t : str) (l : list str) : nat :=
  length (List.filter (fun y => bool_decide (y = t)) l).

(** The normalized tags the aggregator observes in a directory: those of
    the [.json] files that are read and hold an object. *)
Definition file_tags (rt : Runtime) (file : str * result json) : list str :=
  match snd file with
  | Ok (JObj ms) => surviving_tags rt (record_items rt (dict_of_members ms))
  | _ => []
  end.

Definition observed_tags (rt : Runtime) (files : directory) : list str :=
  flat_map (file_tags rt)
    (List.filter (fun file => is_json_file rt (fst file)) files).

(** ** The ranking order, in the words of the specification *)

(** [precedes a b]: the item [a] has the higher count, or the two counts are
    equal and the tag of [a] is the smaller string. *)
Definition precedes (a b : str * Z) : Prop :=
  snd a > snd b ∨ (snd a = snd b ∧ str_ltb (fst a) (fst b) = true).

(** ** The order a sorted list is sorted by *)

(** [key_le key x y]: the key of [y] is not smaller than the key of [x]. *)
Definition key_le {A} (key : A → Z * str) (x y : A) : Prop :=
  tuple_ltb (key y) (key x) = false.

(** ** The tag writer and the run of the script *)

(** [SNOW_DIR], [OUT_DIR], [POPULAR_DIR] and [POPULAR_TAG_FILE] *)
Definition SNOW_DIR : str := lit "snow".
Definition OUT_DIR : str := lit "indexes".
Definition POPULAR_DIR : str := lit "popular".
Definition POPULAR_TAG_FILE : str := lit "tag.json".

(** [os.path.join(d, f)] for a relative file name, with the separator [/]. *)
Definition path_join (d f : str) : str := d ++ lit "/" ++ f.

(** The file [write_popular_tags] writes: its path and the list dumped
    into it. *)
Definition write_popular_tags (tags : list str) : str * list str :=
  (path_join POPULAR_DIR POPULAR_TAG_FILE, tags).

(** A file written by the run, with the value dumped into it. *)
Inductive written : Type :=
  | IndexFile (path : str) (mapping : bucket)
  | TagFile (path : str) (tags : list str).

(** The block under [if __name__ == "__main__"]: the files written, in
    order, and how the run ends. The argument is the state of [SNOW_DIR],
    which both scans see; creating the directories and writing the files
    are taken to succeed. *)
Definition main (rt : Runtime) (snow : store) : list written * result unit :=
  match load_users rt snow with
  | Raise e => ([], Raise e)
  | Ok pairs =>
      let bs := bucket_by_letter rt pairs in
      let indexes :=
        map (fun f => IndexFile (path_join OUT_DIR (fst f)) (snd f))
            (write_indexes bs) in
      match compute_popular_tags rt snow POPULAR_TAG_LIMIT with
      | Raise e => (indexes, Raise e)
      | Ok popular_tags =>
          let f := write_popular_tags popular_tags in
          (indexes ++ [TagFile (fst f) (snd f)], Ok ())
      end
  end.

(** ** Vocabulary of the further properties *)

(** A file whose document is read and parsed but is not an object. *)
Definition holds_non_object (file : str * result json) : bool :=
  match snd file with
  | Ok (JObj _) => false
  | Ok _ => true
  | Raise _ => false
  end.

(** The candidates the aggregator collects from one file: those of its
    record when the file is read and holds an object. *)
Definition file_items (rt : Runtime) (file : str * result json) : list str :=
  match snd file with
  | Ok (JObj ms) => record_items rt (dict_of_members ms)
  | _ => []
  end.

(** The sum of the counts of a counter. *)
Definition total (c : counter) : Z := fold_right Z.add 0 (map snd c).


(** The pairs the loader returns for a store. *)
Definition loaded (rt : Runtime) (snow : store) : list (str * str) :=
  match snow with
  | None => []
  | Some files => flat_map (contribution rt) files
  end.

(** The index files of a run. *)
Definition index_log (rt : Runtime) (snow : store) : list written :=
  map (fun f => IndexFile (path_join OUT_DIR (fst f)) (snd f))
      (write_indexes (bucket_by_letter rt (loaded rt snow))).

(** The [.json] files of a directory, in order. *)
Definition json_files (rt : Runtime) (files : directory) : directory :=
  List.filter (fun file => is_json_file rt (fst file)) files.

(** * Properties of the building blocks *)

(** ** String comparison is a strict total order *)

Lemma str_ltb_irrefl (a : str) : str_ltb a a = false.
Proof.
  induction a as [|x a IH]; simpl; [done|].
  rewrite N.ltb_irrefl, N.eqb_refl, IH. done.
Qed.

Lemma str_ltb_trans (a b c : str) :
  str_ltb a b = true → str_ltb b c = true → str_ltb a c = true.
Proof.
  revert b c. induction a as [|x a IH]; intros [|y b] [|z c]; simpl; try done.
  rewrite !orb_true_iff, !andb_true_iff, !N.ltb_lt, !N.eqb_eq.
  intros [Hxy|[-> Hab]] [Hyz|[-> Hbc]]; [left; lia|left; lia|left; lia|].
  right. split; [done|]. by apply (IH b).
Qed.

Lemma str_ltb_total (a b : str) :
  a ≠ b → str_ltb a b = true ∨ str_ltb b a = true.
Proof.
  revert b. induction a as [|x a IH]; intros [|y b] Hne; simpl; [done|by auto..|].
  rewrite !orb_true_iff, !andb_true_iff, !N.ltb_lt, !N.eqb_eq.
  destruct (N.lt_trichotomy x y) as [?|[->|?]]; [by auto| |by auto].
  destruct (IH b) as [?|?]; [congruence|by auto..].
Qed.

Lemma str_ltb_asym (a b : str) : str_ltb a b = true → str_ltb b a = false.
Proof.
  intros Hab. destruct (str_ltb b a) eqn:Hba; [|done].
  by rewrite <-(str_ltb_irrefl a), (str_ltb_trans a b a).
Qed.

(** ** The sort keys are strictly and totally ordered *)

Lemma tuple_ltb_irrefl (a : Z * str) : tuple_ltb a a = false.
Proof. unfold tuple_ltb. rewrite Z.eqb_refl. apply str_ltb_irrefl. Qed.

Lemma tuple_ltb_trans (a b c : Z * str) :
  tuple_ltb a b = true → tuple_ltb b c = true → tuple_ltb a c = true.
Proof.
  unfold tuple_ltb.
  destruct (Z.eqb_spec a.1 b.1), (Z.eqb_spec b.1 c.1), (Z.eqb_spec a.1 c.1);
    rewrite ?Z.ltb_lt; try lia; try done.
  apply str_ltb_trans.
Qed.

Lemma tuple_ltb_total (a b : Z * str) :
  a ≠ b → tuple_ltb a b = true ∨ tuple_ltb b a = true.
Proof.
  destruct a as [x s], b as [y t]. unfold tuple_ltb. simpl. intros Hne.
  destruct (Z.eqb_spec x y) as [->|Hxy].
  - rewrite Z.eqb_refl. apply str_ltb_total. congruence.
  - destruct (Z.eqb_spec y x); [congruence|]. rewrite !Z.ltb_lt. lia.
Qed.

Lemma tuple_ltb_asym (a b : Z * str) :
  tuple_ltb a b = true → tuple_ltb b a = false.
Proof.
  intros Hab. destruct (tuple_ltb b a) eqn:Hba; [|done].
  by rewrite <-(tuple_ltb_irrefl a), (tuple_ltb_trans a b a).
Qed.

Lemma key_le_trans {A} (key : A → Z * str) : Transitive (key_le key).
Proof.
  intros x y z. unfold key_le. intros Hxy Hyz.
  destruct (tuple_ltb (key z) (key x)) eqn:Hzx; [|done].
  destruct (decide (key x = key y)) as [E|E]; [by rewrite E, Hyz in Hzx|].
  destruct (tuple_ltb_total _ _ E) as [H|H]; [|congruence].
  by rewrite (tuple_ltb_trans _ _ _ Hzx H) in Hyz.
Qed.

(** ** The stable sort sorts and permutes *)

Section SortedFacts.
Context {A : Type} (key : A → Z * str).

Lemma insert_sorted_perm (x : A) (l : list A) :
  insert_sorted key x l ≡ₚ x :: l.
Proof.
  induction l as [|y l IH]; simpl; [done|].
  destruct (tuple_ltb (key y) (key x)); [|done].
  by rewrite IH, Permutation_swap.
Qed.

Lemma sorted_perm (l : list A) : sorted key l ≡ₚ l.
Proof.
  induction l as [|x l IH]; simpl; [done|].
  by rewrite insert_sorted_perm, IH.
Qed.

Lemma insert_sorted_strongly (x : A) (l : list A) :
  StronglySorted (key_le key) l →
  StronglySorted (key_le key) (insert_sorted key x l).
Proof.
  induction 1 as [|y l Hl IH Hy]; simpl; [by repeat constructor|].
  destruct (tuple_ltb (key y) (key x)) eqn:Hyx.
  - constructor; [done|].
    rewrite insert_sorted_perm. constructor; [|done].
    unfold key_le. by apply tuple_ltb_asym.
  - constructor; [by constructor|].
    constructor; [done|].
    eapply Forall_impl; [exact Hy|].
    intros z Hz. by apply (key_le_trans key x y z).
Qed.

Lemma sorted_strongly (l : list A) : StronglySorted (key_le key) (sorted key l).
Proof.
  induction l as [|x l IH]; simpl; [constructor|].
  by apply insert_sorted_strongly.
Qed.

Lemma sorted_length (l : list A) : length (sorted key l) = length l.
Proof. by rewrite sorted_perm. Qed.

(** Elements with pairwise different keys have one sorted arrangement
    only, so the result does not depend on the order of the input. *)
Lemma sorted_perm_invariant (l1 l2 : list A) :
  (∀ x y, x ∈ l1 → y ∈ l1 → key x = key y → x = y) →
  l1 ≡ₚ l2 → sorted key l1 = sorted key l2.
Proof.
  intros Hinj Hperm.
  apply (StronglySorted_unique_strong (key_le key));
    [|apply sorted_strongly..|by rewrite !sorted_perm].
  intros x y Hx Hy Hxy Hyx.
  rewrite sorted_perm in Hx. rewrite sorted_perm, <-Hperm in Hy.
  apply Hinj; [done..|].
  destruct (decide (key x = key y)) as [|E]; [done|].
  unfold key_le in *. destruct (tuple_ltb_total _ _ E); congruence.
Qed.

(** In a sorted list an element with a strictly smaller key stands at an
    earlier position. *)
Lemma strongly_sorted_position (l : list A) (i j : nat) (x y : A) :
  StronglySorted (key_le key) l →
  l !! i = Some x → l !! j = Some y →
  tuple_ltb (key x) (key y) = true → (i < j)%nat.
Proof.
  intros Hl. revert i j.
  induction Hl as [|z l Hl IH Hz]; intros i j Hi Hj Hlt; [done|].
  destruct i as [|i], j as [|j]; simpl in *.
  - simplify_eq. by rewrite tuple_ltb_irrefl in Hlt.
  - lia.
  - simplify_eq. rewrite Forall_forall in Hz.
    assert (key_le key y x) as Hle.
    { apply Hz. by eapply list_elem_of_lookup_2. }
    unfold key_le in Hle. congruence.
  - apply ->Nat.succ_lt_mono. by eapply IH.
Qed.
End SortedFacts.

(** ** Dictionaries *)

Lemma map_fmap {A B} (f : A → B) (l : list A) : map f l = f <$> l.
Proof. reflexivity. Qed.

Section DictFacts.
Context {V : Type}.
Implicit Types (d : pydict V) (k : str) (v : V).

Lemma dict_get_set d k v k' :
  dict_get (dict_set d k v) k'
  = if decide (k = k') then Some v else dict_get d k'.
Proof.
  induction d as [|[k0 v0] d IH]; simpl.
  - repeat case_decide; congruence.
  - repeat (case_decide; simpl; try congruence).
Qed.

Lemma dict_get_None d k : dict_get d k = None ↔ k ∉ map fst d.
Proof.
  induction d as [|[k0 v0] d IH]; simpl.
  - split; [intros _; apply not_elem_of_nil|done].
  - rewrite not_elem_of_cons. case_decide as E.
    + split; [done|]. intros [? _]. congruence.
    + rewrite IH. split; [by split|by intros [_ ?]].
Qed.

Lemma dict_get_Some_elem d k v : dict_get d k = Some v → (k, v) ∈ d.
Proof.
  induction d as [|[k0 v0] d IH]; simpl; [done|].
  case_decide as E; intros H; [injection H as ->; subst; left|right; auto].
Qed.

Lemma dict_elem_get d k v : dict_wf d → (k, v) ∈ d → dict_get d k = Some v.
Proof.
  unfold dict_wf. induction d as [|[k0 v0] d IH]; simpl.
  - intros _ H. by apply elem_of_nil in H.
  - rewrite NoDup_cons. intros [Hk0 Hd] [E|Hin]%elem_of_cons.
    + simplify_eq. by rewrite decide_True.
    + rewrite decide_False; [auto|]. intros ->. apply Hk0.
      rewrite map_fmap. by apply (list_elem_of_fmap_2 fst _ (k, v)).
Qed.

Lemma dict_set_keys d k v :
  map fst (dict_set d k v)
  = match dict_get d k with
    | Some _ => map fst d
    | None => map fst d ++ [k]
    end.
Proof.
  induction d as [|[k0 v0] d IH]; simpl; [done|].
  case_decide; simpl; [done|]. rewrite IH. by destruct (dict_get d k).
Qed.

Lemma dict_set_wf d k v : dict_wf d → dict_wf (dict_set d k v).
Proof.
  unfold dict_wf. rewrite dict_set_keys.
  destruct (dict_get d k) eqn:E; [done|].
  intros Hd. apply NoDup_app. split_and!; [done| |apply NoDup_singleton].
  intros x Hx ->%list_elem_of_singleton. by apply dict_get_None in E.
Qed.

(** In a well-formed dictionary two items with the same key are one. *)
Lemma dict_wf_key_inj d (x y : str * V) :
  dict_wf d → x ∈ d → y ∈ d → x.1 = y.1 → x = y.
Proof.
  intros Hd Hx Hy E. destruct x as [k v], y as [k' v']. simpl in E. subst k'.
  apply (dict_elem_get d k v Hd) in Hx. apply (dict_elem_get d k v' Hd) in Hy.
  congruence.
Qed.
End DictFacts.

(** ** The ranker *)

Lemma precedes_sort_key (a b : str * Z) :
  precedes a b ↔ tuple_ltb (sort_key a) (sort_key b) = true.
Proof.
  unfold precedes, tuple_ltb, sort_key. simpl.
  destruct (Z.eqb_spec (- a.2) (- b.2)); rewrite ?Z.ltb_lt;
    split; [intros [?|[? ?]]; [lia|done] | intros; right; split; [lia|done]
           | intros [?|[? ?]]; lia | intros; left; lia].
Qed.

Lemma sort_key_inj (c : counter) (x y : str * Z) :
  dict_wf c → x ∈ c → y ∈ c → sort_key x = sort_key y → x = y.
Proof.
  intros Hc Hx Hy E. apply (dict_wf_key_inj c); [done..|].
  unfold sort_key in E. congruence.
Qed.

(** The ranker is total on integer limits and returns a prefix of the
    sorted items. *)
Lemma rank_int (rt : Runtime) (c : counter) (limit : pyvalue) (n : Z) :
  py_int rt limit = Ok n →
  rank rt c limit
  = Ok (map fst (take (Z.to_nat (Z.max 0 n)) (sorted sort_key c))).
Proof.
  intros Hn. unfold rank. destruct c as [|kv c]; [|by rewrite Hn].
  simpl. by rewrite take_nil.
Qed.

Lemma rank_inv (rt : Runtime) (c : counter) (limit : pyvalue) (out : list str) :
  c ≠ [] → rank rt c limit = Ok out →
  ∃ n, py_int rt limit = Ok n
       ∧ out = map fst (take (Z.to_nat (Z.max 0 n)) (sorted sort_key c)).
Proof.
  intros Hc. unfold rank. destruct c as [|kv c]; [done|].
  destruct (py_int rt limit) as [n|e] eqn:Hn; simpl; [|done].
  intros [= <-]. by exists n.
Qed.

(** ** The bucketer *)

Lemma fold_insert_empty_lookup (ks : list str) (m : buckets) (k : str) :
  fold_left (fun b L => <[L := ∅]> b) ks m !! k
  = if decide (k ∈ ks) then Some ∅ else m !! k.
Proof.
  revert m. induction ks as [|k0 ks IH]; intros m; cbn [fold_left].
  - by rewrite decide_False by apply not_elem_of_nil.
  - rewrite IH. destruct (decide (k ∈ ks)) as [Hin|Hout].
    + by rewrite decide_True by (by right).
    + destruct (decide (k = k0)) as [->|Hne].
      * rewrite decide_True by left. apply lookup_insert_eq.
      * rewrite decide_False by (by intros [?|?]%elem_of_cons).
        by apply lookup_insert_ne.
Qed.

Lemma initial_buckets_lookup (k : str) :
  initial_buckets !! k = if decide (k ∈ bucket_keys) then Some ∅ else None.
Proof.
  unfold initial_buckets, bucket_keys. rewrite !fold_insert_empty_lookup.
  rewrite lookup_empty.
  destruct (decide (k ∈ DIGITS)), (decide (k ∈ ascii_uppercase));
    (rewrite decide_True by (apply elem_of_app; auto))
    || (rewrite decide_False by (intros [?|?]%elem_of_app; done)); done.
Qed.

Section BucketerFacts.
Variable rt : Runtime.

(** The loop never adds or removes a bucket. *)
Lemma bucket_pair_keys (bs : buckets) (p : str * str) (k : str) :
  is_Some (bucket_pair rt bs p !! k) ↔ is_Some (bs !! k).
Proof.
  destruct p as [name uid]. unfold bucket_pair.
  destruct (negb (truthy name)); [done|].
  destruct (bs !! first_of rt name) as [b|] eqn:E; [|done].
  rewrite lookup_insert. case_decide; [subst|done].
  rewrite E. split; eauto.
Qed.

Lemma bucket_fold_keys (pairs : list (str * str)) (bs : buckets) (k : str) :
  is_Some (fold_left (bucket_pair rt) pairs bs !! k) ↔ is_Some (bs !! k).
Proof.
  revert bs. induction pairs as [|p pairs IH]; intros bs;
    cbn [fold_left]; [done|].
  by rewrite IH, bucket_pair_keys.
Qed.

(** What one turn of the loop does to the binding of a name. *)
Lemma bucket_pair_lookup (bs : buckets) (name uid k n : str) :
  bucket_lookup (bucket_pair rt bs (name, uid)) k n
  = if decide (name ≠ [] ∧ is_Some (bs !! first_of rt name)
               ∧ k = first_of rt name ∧ n = name)
    then Some uid else bucket_lookup bs k n.
Proof.
  unfold bucket_pair, bucket_lookup. destruct name as [|c name]; simpl;
    [done|].
  set (nm := c :: name). set (f := first_of rt nm).
  destruct (bs !! f) as [b|] eqn:E.
  - rewrite lookup_insert. destruct (decide (f = k)) as [<-|Hk]; simpl.
    + rewrite E. simpl. rewrite lookup_insert.
      destruct (decide (nm = n)) as [<-|Hn].
      * by rewrite decide_True by (split_and!; eauto).
      * rewrite decide_False; [done|]. intros (_ & _ & _ & ->). done.
    + rewrite decide_False; [done|]. intros (_ & _ & -> & _). done.
  - rewrite decide_False; [done|]. intros (_ & [? ?] & _). done.
Qed.

(** Every binding after the loop was there before it or comes from a
    pair of the loop. *)
Lemma bucket_fold_sound (pairs : list (str * str)) (bs : buckets)
    (k name uid : str) :
  bucket_lookup (fold_left (bucket_pair rt) pairs bs) k name = Some uid →
  bucket_lookup bs k name = Some uid
  ∨ (name ≠ [] ∧ k = first_of rt name ∧ (name, uid) ∈ pairs).
Proof.
  revert bs. induction pairs as [|[n u] pairs IH]; intros bs;
    cbn [fold_left]; [auto|].
  intros [H|(? & ? & ?)]%IH; [|right; split_and!; [done..|by right]].
  rewrite bucket_pair_lookup in H. case_decide as Hd; [|by left].
  destruct Hd as (? & _ & -> & ->). injection H as ->.
  right. split_and!; [done..|left].
Qed.

(** A pair whose name differs from [name] leaves the binding of [name]. *)
Lemma bucket_fold_other (pairs : list (str * str)) (bs : buckets)
    (k name : str) :
  (∀ uid, (name, uid) ∉ pairs) →
  bucket_lookup (fold_left (bucket_pair rt) pairs bs) k name
  = bucket_lookup bs k name.
Proof.
  revert bs. induction pairs as [|[n u] pairs IH]; intros bs Hout;
    cbn [fold_left]; [done|].
  rewrite IH by (intros uid Hin; apply (Hout uid); by right).
  rewrite bucket_pair_lookup. rewrite decide_False; [done|].
  intros (_ & _ & _ & ->). apply (Hout u). left.
Qed.

Lemma bucket_by_letter_keys (pairs : list (str * str)) (k : str) :
  is_Some (bucket_by_letter rt pairs !! k) ↔ k ∈ bucket_keys.
Proof.
  unfold bucket_by_letter. rewrite bucket_fold_keys, initial_buckets_lookup.
  case_decide; split; [done|eauto|by intros [? ?]|done].
Qed.

(** The key of a name that starts with an ASCII character. *)
Lemma first_of_ascii (c : N) (rest : str) :
  is_ascii c = true → first_of rt (c :: rest) = [ascii_upper c].
Proof. intros Hc. unfold first_of, upper. simpl. by rewrite Hc. Qed.

Lemma bucket_fold_kept (pairs : list (str * str)) (bs : buckets)
    (k name : str) :
  is_Some (bucket_lookup bs k name) →
  is_Some (bucket_lookup (fold_left (bucket_pair rt) pairs bs) k name).
Proof.
  revert bs. induction pairs as [|[n u] pairs IH]; intros bs H;
    cbn [fold_left]; [done|].
  apply IH. rewrite bucket_pair_lookup. by case_decide.
Qed.

Lemma bucket_fold_complete (pairs : list (str * str)) (bs : buckets)
    (name uid : str) :
  (name, uid) ∈ pairs → name ≠ [] → is_Some (bs !! first_of rt name) →
  is_Some (bucket_lookup (fold_left (bucket_pair rt) pairs bs)
             (first_of rt name) name).
Proof.
  revert bs. induction pairs as [|[n u] pairs IH]; intros bs Hin Hne Hk;
    cbn [fold_left].
  - by apply elem_of_nil in Hin.
  - apply elem_of_cons in Hin as [[= <- <-]|Hin].
    + apply bucket_fold_kept. rewrite bucket_pair_lookup.
      by rewrite decide_True.
    + apply IH; [done..|]. by apply bucket_pair_keys.
Qed.

Lemma initial_bucket_lookup (k name : str) :
  bucket_lookup initial_buckets k name = None.
Proof.
  unfold bucket_lookup. rewrite initial_buckets_lookup.
  case_decide; [|done]. simpl. apply lookup_empty.
Qed.
End BucketerFacts.

Lemma ascii_forall (P : N → bool) :
  forallb P (map N.of_nat (seq 0 128)) = true →
  ∀ c, is_ascii c = true → P c = true.
Proof.
  rewrite forallb_forall. intros H c Hc. apply H.
  unfold is_ascii in Hc. apply N.ltb_lt in Hc.
  apply in_map_iff. exists (N.to_nat c). split; [lia|].
  apply in_seq. lia.
Qed.

Lemma ascii_key_alnum (c : N) :
  is_ascii c = true → ([ascii_upper c] ∈ bucket_keys ↔ ascii_alnum c = true).
Proof.
  intros Hc.
  pose proof (ascii_forall
                (fun x => eqb (bool_decide ([ascii_upper x] ∈ bucket_keys))
                              (ascii_alnum x))) as H.
  assert (bool_decide ([ascii_upper c] ∈ bucket_keys) = ascii_alnum c) as <-.
  { apply eqb_prop, H; [|done]. vm_compute. reflexivity. }
  by rewrite bool_decide_eq_true.
Qed.

(** ** The loader *)

Section LoaderFacts.
Variable rt : Runtime.

(** The body of the [try] only appends to the pairs it is given. *)
Lemma load_record_app (pairs : list (str * str)) (uid : str)
    (content : result json) :
  load_record pairs uid content
  = new ← load_record [] uid content; Ok (pairs ++ new).
Proof.
  unfold load_record. destruct content as [data|e]; simpl; [|done].
  destruct (record_name data) as [name|e]; simpl; [|done].
  destruct (truthy name); simpl; [done|]. by rewrite app_nil_r.
Qed.

(** A turn of the loop never raises. *)
Lemma load_file_ok (pairs : list (str * str)) (file : str * result json) :
  load_file rt pairs file = Ok (pairs ++ contribution rt file).
Proof.
  destruct file as [fname content]. unfold load_file, contribution. simpl.
  destruct (is_json_file rt fname); simpl; [|by rewrite app_nil_r].
  rewrite load_record_app.
  destruct (load_record [] (uid_of fname) content); simpl;
    [done|by rewrite app_nil_r].
Qed.

Lemma load_loop_ok (files : directory) (pairs : list (str * str)) :
  for_each (load_file rt) files pairs
  = Ok (pairs ++ flat_map (contribution rt) files).
Proof.
  revert pairs. induction files as [|file files IH]; intros pairs;
    cbn [for_each flat_map].
  - by rewrite app_nil_r.
  - rewrite load_file_ok. simpl. by rewrite IH, app_assoc.
Qed.

Lemma load_users_ok (files : directory) :
  load_users rt (Some files) = Ok (flat_map (contribution rt) files).
Proof. unfold load_users. by rewrite load_loop_ok. Qed.

(** The name the loader reads from an object. *)
Lemma record_name_obj (ms : list (str * json)) :
  record_name (JObj ms)
  = match dict_get (dict_of_members ms) (lit "name") with
    | Some (JStr s) => Ok (strip s)
    | Some _ => Raise AttributeError
    | None => Ok []
    end.
Proof.
  unfold record_name, dict_get_default. simpl.
  by destruct (dict_get (dict_of_members ms) (lit "name")) as [[]|].
Qed.

Lemma contribution_not_json (file : str * result json) :
  is_json_file rt (fst file) = false → contribution rt file = [].
Proof. unfold contribution. by intros ->. Qed.

Lemma flat_map_contribution_filter (files : directory) :
  flat_map (contribution rt)
    (List.filter (fun file => is_json_file rt (fst file)) files)
  = flat_map (contribution rt) files.
Proof.
  induction files as [|file files IH]; simpl; [done|].
  destruct (is_json_file rt file.1) eqn:E; simpl; [by rewrite IH|].
  by rewrite contribution_not_json.
Qed.
End LoaderFacts.

Lemma filter_filter_same {A} (f : A → bool) (l : list A) :
  List.filter f (List.filter f l) = List.filter f l.
Proof.
  induction l as [|x l IH]; simpl; [done|].
  destruct (f x) eqn:E; simpl; [by rewrite E, IH|done].
Qed.

Lemma take_drop_suffix (s : str) (n : nat) :
  (n ≤ length s)%nat →
  ∃ suffix, length suffix = n ∧ s = take (length s - n) s ++ suffix.
Proof.
  intros Hn. exists (drop (length s - n) s). split.
  - rewrite length_drop. lia.
  - by rewrite take_drop.
Qed.

(** ** The aggregator *)

Lemma startswith_app (s p : str) :
  startswith s p = true ↔ ∃ r, s = p ++ r.
Proof.
  revert s. induction p as [|a p IH]; intros [|b s]; simpl.
  - split; [eauto|done].
  - split; [eauto|done].
  - split; [done|]. by intros [r Hr].
  - rewrite andb_true_iff, N.eqb_eq, IH. split.
    + intros [-> [r ->]]. by exists r.
    + intros [r [= -> ->]]. eauto.
Qed.

Lemma isdigit_spec (rt : Runtime) (s : str) :
  isdigit rt s = true ↔ s ≠ [] ∧ Forall (fun c => cp_isdigit rt c = true) s.
Proof.
  unfold isdigit. destruct s as [|c s].
  - split; [done|]. by intros [? _].
  - rewrite forallb_forall, Forall_forall.
    setoid_rewrite list_elem_of_In. split; [by split|by intros [_ ?]].
Qed.

Section AggregatorFacts.
Variable rt : Runtime.

Lemma is_tag_key_numbered (k : str) :
  is_tag_key rt k = true ↔ numbered_key rt k.
Proof.
  unfold is_tag_key, numbered_key.
  rewrite andb_true_iff, startswith_app, isdigit_spec. split.
  - intros [[r Hr] Hd]. exists r. by rewrite Hr in Hd.
  - intros (ds & Hk & Hd). rewrite Hk. split; [eauto|done].
Qed.

Lemma tags_field_aggregated (d : pydict json) :
  tags_field_items d = aggregated_candidates d.
Proof.
  unfold tags_field_items, aggregated_candidates, dict_get_default.
  by destruct (dict_get d (lit "tags")) as [[]|].
Qed.

Lemma collect_keys_app (d : pydict json) (items : list str) :
  fold_left (collect_key rt) d items = items ++ numbered_candidates rt d.
Proof.
  revert items. induction d as [|[k v] d IH]; intros items;
    cbn [fold_left].
  - by rewrite app_nil_r.
  - rewrite IH. unfold numbered_candidates. cbn [flat_map fst snd].
    unfold collect_key.
    destruct v; rewrite ?app_nil_r; try done.
    destruct (is_tag_key rt k); [|done]. by rewrite <-app_assoc.
Qed.

(** What one turn of the counting loop does to the count of a tag. *)
Lemma count_tag_get (c : counter) (x t : str) :
  dict_get (count_tag rt c x) t
  = if truthy (normalize rt x) && bool_decide (normalize rt x = t)
    then Some (dict_get_default c t 0 + 1)
    else dict_get c t.
Proof.
  unfold count_tag. destruct (truthy (normalize rt x)); simpl; [|done].
  rewrite dict_get_set. case_decide as E.
  - subst t. by rewrite bool_decide_eq_true_2.
  - by rewrite bool_decide_eq_false_2.
Qed.

Lemma surviving_cons (x : str) (items : list str) :
  surviving_tags rt (x :: items)
  = if truthy (normalize rt x)
    then normalize rt x :: surviving_tags rt items
    else surviving_tags rt items.
Proof. reflexivity. Qed.

Lemma count_tags_get (items : list str) (c : counter) (t : str) :
  dict_get_default (fold_left (count_tag rt) items c) t 0
  = dict_get_default c t 0
    + Z.of_nat (occurrences t (surviving_tags rt items)).
Proof.
  revert c. induction items as [|x items IH]; intros c; cbn [fold_left].
  - unfold occurrences. simpl. lia.
  - rewrite IH, surviving_cons. unfold dict_get_default at 1.
    rewrite count_tag_get.
    destruct (truthy (normalize rt x)); simpl; [|done].
    unfold occurrences. simpl.
    destruct (bool_decide (normalize rt x = t)); simpl; [lia|done].
Qed.

Lemma count_tags_keys (items : list str) (c : counter) (t : str) :
  dict_get (fold_left (count_tag rt) items c) t = None
  ↔ dict_get c t = None ∧ t ∉ surviving_tags rt items.
Proof.
  revert c. induction items as [|x items IH]; intros c; cbn [fold_left].
  - split; [intros ?; split; [done|apply not_elem_of_nil]|by intros [? _]].
  - rewrite IH, surviving_cons, count_tag_get.
    destruct (truthy (normalize rt x)); simpl; [|done].
    rewrite not_elem_of_cons. case_bool_decide as E.
    + split; [by intros [? _]|]. intros (_ & ? & _). congruence.
    + split; [intros [? ?]|intros (? & ? & ?)]; split_and!; done || congruence.
Qed.

(** The counter stays a dictionary. *)
Lemma count_tags_wf (items : list str) (c : counter) :
  dict_wf c → dict_wf (fold_left (count_tag rt) items c).
Proof.
  revert c. induction items as [|x items IH]; intros c Hc; cbn [fold_left];
    [done|].
  apply IH. unfold count_tag. destruct (truthy (normalize rt x)); [|done].
  by apply dict_set_wf.
Qed.

Lemma count_file_wf (c c' : counter) (file : str * result json) :
  dict_wf c → count_file rt c file = Ok c' → dict_wf c'.
Proof.
  unfold count_file. destruct (snd file) as [data|e].
  - destruct (as_dict data) as [d|e]; simpl; [|done].
    intros Hc [= <-]. by apply count_tags_wf.
  - by intros Hc [= <-].
Qed.

Lemma count_loop_wf (files : directory) (c c' : counter) :
  dict_wf c → for_each (count_file rt) files c = Ok c' → dict_wf c'.
Proof.
  revert c. induction files as [|file files IH]; intros c Hc;
    cbn [for_each].
  - by intros [= <-].
  - destruct (count_file rt c file) as [c1|e] eqn:E; simpl; [|done].
    apply IH. by eapply count_file_wf.
Qed.

(** The counter the aggregator hands to the ranker has no tag twice. *)
Lemma count_tags_result_wf (files : directory) (c : counter) :
  count_tags rt files = Ok c → dict_wf c.
Proof. apply count_loop_wf. unfold dict_wf. simpl. constructor. Qed.
(** The tags of the counter after the loop are those it had and those the
    files show. *)
Lemma count_loop_keys (files : directory) (c c' : counter) (t : str) :
  for_each (count_file rt) files c = Ok c' →
  dict_get c' t = None
  ↔ dict_get c t = None ∧ t ∉ flat_map (file_tags rt) files.
Proof.
  revert c. induction files as [|file files IH]; intros c;
    cbn [for_each flat_map].
  - intros [= <-]. split; [intros ?; split; [done|apply not_elem_of_nil]
                          |by intros [? _]].
  - destruct (count_file rt c file) as [c1|e] eqn:E; simpl; [|done].
    intros H. rewrite (IH c1 H), not_elem_of_app.
    assert (dict_get c1 t = None
            ↔ dict_get c t = None ∧ t ∉ file_tags rt file) as ->; [|tauto].
    unfold count_file, file_tags in *. destruct (snd file) as [data|e].
    + destruct data; simpl in E; try done. injection E as <-.
      apply count_tags_keys.
    + injection E as <-.
      split; [intros ?; split; [done|apply not_elem_of_nil]|by intros [? _]].
Qed.

(** The tags of the counter the aggregator builds are the observed ones. *)
Lemma count_tags_observed (files : directory) (c : counter) :
  count_tags rt files = Ok c →
  (list_to_set (map fst c) : gset str) = list_to_set (observed_tags rt files).
Proof.
  intros H. apply set_eq. intros t. rewrite !elem_of_list_to_set.
  pose proof (count_loop_keys _ _ _ t H) as Hk. simpl in Hk.
  rewrite dict_get_None in Hk. unfold observed_tags.
  destruct (decide (t ∈ map fst c)), (decide (t ∈ flat_map (file_tags rt)
    (List.filter (fun file => is_json_file rt (fst file)) files))); tauto.
Qed.
End AggregatorFacts.

(** * Running the model *)

Example lit_user : lit "USER.JSON" = [85; 83; 69; 82; 46; 74; 83; 79; 78]%N.
Proof. reflexivity. Qed.

Example lower_user : lower plain_runtime (lit "USER.JSON") = lit "user.json".
Proof. reflexivity. Qed.

Example strip_bar : strip (lit " Bar ") = lit "Bar".
Proof. reflexivity. Qed.

Example split_example :
  split_on comma (lit "a, b,,c") = [lit "a"; lit " b"; lit ""; lit "c"].
Proof. reflexivity. Qed.

Example endswith_json : endswith (lit "user.json") (lit ".json") = true.
Proof. reflexivity. Qed.

Example load_alice :
  load_users plain_runtime
    (Some [(lit "42.json",
            Ok (JObj [(lit "name", JStr (lit " Alice "));
                      (lit "tags", JArr [JStr (lit "Foo")])]));
           (lit "notes.txt", Raise OSError);
           (lit "9.JSON", Ok (JObj [(lit "name", JInt 7)]));
           (lit "bad.json", Raise JSONDecodeError)])
  = Ok [(lit "Alice", lit "42")].
Proof. vm_compute. reflexivity. Qed.

Example bucket_alice :
  bucket_by_letter plain_runtime [(lit "alice", lit "42"); (lit "?x", lit "1")]
    !! lit "A" = Some {[ lit "alice" := lit "42" ]}.
Proof. vm_compute. reflexivity. Qed.

Example bucket_7bot :
  bucket_by_letter plain_runtime [(lit "7bot", lit "9")] !! lit "7"
  = Some {[ lit "7bot" := lit "9" ]}.
Proof. vm_compute. reflexivity. Qed.

Example count_7bot :
  count_tags plain_runtime
    [(lit "9.json", Ok (JObj [(lit "name", JStr (lit "7bot"));
                              (lit "tag1", JStr (lit "X"));
                              (lit "tag2", JStr (lit "x"))]))]
  = Ok [(lit "x", 2)].
Proof. vm_compute. reflexivity. Qed.

Example count_alice :
  count_tags plain_runtime
    [(lit "42.json", Ok (JObj [(lit "name", JStr (lit "Alice"));
                               (lit "tags", JArr [JStr (lit "Foo");
                                                  JInt 3;
                                                  JStr (lit " Bar ")])]))]
  = Ok [(lit "foo", 1); (lit "bar", 1)].
Proof. vm_compute. reflexivity. Qed.

Example rank_example :
  rank plain_runtime
    [(lit "b", 2); (lit "z", 5); (lit "a", 2); (lit "c", 1)] (PInt 3)
  = Ok [lit "z"; lit "a"; lit "b"].
Proof. vm_compute. reflexivity. Qed.

Example blank_name :
  load_users plain_runtime
    (Some [(lit "1.json", Ok (JObj [(lit "name", JStr (lit "  "));
                                    (lit "tags", JStr (lit "a, B"))]))])
  = Ok []
  ∧ compute_popular_tags plain_runtime
      (Some [(lit "1.json", Ok (JObj [(lit "name", JStr (lit "  "));
                                      (lit "tags", JStr (lit "a, B"))]))])
      POPULAR_TAG_LIMIT
    = Ok [lit "a"; lit "b"].
Proof. split; vm_compute; reflexivity. Qed.

(** A name in a script without case, here the code points of "日本語", is
    put in no bucket. *)
Example uncased_name :
  bucket_by_letter plain_runtime [([26085; 26412; 35486]%N, lit "1")]
  = initial_buckets.
Proof. vm_compute. reflexivity. Qed.

Example missing_directory :
  load_users plain_runtime None = Ok []
  ∧ compute_popular_tags plain_runtime None POPULAR_TAG_LIMIT = Ok [].
Proof. split; reflexivity. Qed.

(** Closing a goal by running the model. *)
Ltac run := vm_compute; first [reflexivity | exact I | done].

Ltac nodup := apply (bool_decide_unpack _); vm_compute; exact I.

(** * The record loader *)

(** C4, as the code has it. For a [.json] file that parses to an object,
    the loader reads the [name] field without coercing it: a string is
    trimmed, and the record yields the pair of the trimmed name and the id
    when the trimmed name is not empty; a missing name or a name that is
    empty after trimming yields no pair and raises nothing; a name that is
    not a string yields no pair, through an [AttributeError] that the
    loader catches. *)
Theorem C4_name_extraction (rt : Runtime) (fname : str)
    (ms : list (str * json)) (pairs : list (str * str)) :
  is_json_file rt fname = true →
  load_file rt pairs (fname, Ok (JObj ms))
  = Ok match dict_get (dict_of_members ms) (lit "name") with
       | Some (JStr s) =>
           if truthy (strip s) then pairs ++ [(strip s, uid_of fname)]
           else pairs
       | Some _ => pairs
       | None => pairs
       end
  ∧ ((∀ v, dict_get (dict_of_members ms) (lit "name") = Some v →
           ∃ s, v = JStr s) →
     ∃ r, load_record pairs (uid_of fname) (Ok (JObj ms)) = Ok r)
  ∧ (∀ v, dict_get (dict_of_members ms) (lit "name") = Some v →
          (∀ s, v ≠ JStr s) →
          load_record pairs (uid_of fname) (Ok (JObj ms))
          = Raise AttributeError).
Proof.
  intros Hjson. unfold load_file, load_record. rewrite Hjson. simpl.
  rewrite record_name_obj.
  destruct (dict_get (dict_of_members ms) (lit "name")) as [v|] eqn:E.
  - destruct v; simpl;
      (split_and!;
       [ done
       | intros Hstr; destruct (Hstr _ eq_refl) as [s' Hs'];
         first [discriminate Hs' | eauto]
       | intros v' Hv' Hns; injection Hv' as <-;
         first [done | exfalso; by eapply Hns] ]).
  - simpl. split_and!; [done|eauto|done].
Qed.

Lemma C4_name_extraction_witness :
  load_file plain_runtime [] (lit "42.json",
                              Ok (JObj [(lit "name", JStr (lit " Alice "))]))
  = Ok [(lit "Alice", lit "42")].
Proof.
  exact (proj1 (C4_name_extraction plain_runtime (lit "42.json")
                  [(lit "name", JStr (lit " Alice "))] [] eq_refl)).
Defined.

(** The claim C4 fails on a name that is not a string: the record of the
    file [7.json] has the integer 5 as its name, whose string form "5" is
    not empty, and the loader returns no pair for it. *)
Lemma C4_counterexample :
  load_users plain_runtime
    (Some [(lit "7.json", Ok (JObj [(lit "name", JInt 5)]))])
  = Ok []
  ∧ ¬ (lit "5", lit "7")
      ∈ contribution plain_runtime
          (lit "7.json", Ok (JObj [(lit "name", JInt 5)])).
Proof. split; [run|]. vm_compute. apply not_elem_of_nil. Qed.

(** C9. The loader returns a list for every store: a path that does not
    exist gives the empty list, and a directory gives the pairs each file
    contributes, in order. A file whose processing raises (its reading or
    parsing fails, its document is not an object, its name is not a string)
    contributes no pair, and the result is the one of the directory without
    that file: the files after it are processed as usual. *)
Theorem C9_load_users_total (rt : Runtime) (path : store) :
  (∃ pairs, load_users rt path = Ok pairs)
  ∧ (∀ files,
        load_users rt (Some files) = Ok (flat_map (contribution rt) files))
  ∧ (∀ files1 files2 fname content e,
        load_record [] (uid_of fname) content = Raise e →
        contribution rt (fname, content) = []
        ∧ load_users rt (Some (files1 ++ (fname, content) :: files2))
          = load_users rt (Some (files1 ++ files2)))
  ∧ (∀ pairs uid e, load_record pairs uid (Raise e) = Raise e)
  ∧ (∀ pairs uid data,
        (∀ ms, data ≠ JObj ms) →
        load_record pairs uid (Ok data) = Raise AttributeError)
  ∧ (∀ pairs uid ms v,
        dict_get (dict_of_members ms) (lit "name") = Some v →
        (∀ s, v ≠ JStr s) →
        load_record pairs uid (Ok (JObj ms)) = Raise AttributeError).
Proof.
  split_and!.
  - destruct path as [files|]; [|by exists []].
    rewrite load_users_ok. eauto.
  - apply load_users_ok.
  - intros files1 files2 fname content e He.
    assert (contribution rt (fname, content) = []) as Hc.
    { unfold contribution. simpl. rewrite He.
      by destruct (is_json_file rt fname). }
    split; [done|]. rewrite !load_users_ok, !flat_map_app. simpl.
    by rewrite Hc.
  - done.
  - intros pairs uid data Hobj. unfold load_record. simpl.
    destruct data; try done. exfalso. by eapply Hobj.
  - intros pairs uid ms v Hv Hns. unfold load_record. simpl.
    rewrite record_name_obj, Hv. destruct v; try done. exfalso. by eapply Hns.
Qed.

Lemma C9_load_users_total_witness :
  load_users plain_runtime
    (Some ([(lit "1.json", Ok (JObj [(lit "name", JStr (lit "Ann"))]))]
           ++ (lit "2.json", Ok (JArr [JInt 1]))
           :: [(lit "3.json", Ok (JObj [(lit "name", JStr (lit "Cy"))]))]))
  = load_users plain_runtime
      (Some ([(lit "1.json", Ok (JObj [(lit "name", JStr (lit "Ann"))]))]
             ++ [(lit "3.json", Ok (JObj [(lit "name", JStr (lit "Cy"))]))])).
Proof.
  apply (proj1 (proj2 (proj2 (C9_load_users_total plain_runtime None)))
           _ _ (lit "2.json") (Ok (JArr [JInt 1])) AttributeError).
  reflexivity.
Defined.

(** C10. The loader and the tag aggregator give the same result on a
    directory and on its files whose lowercased name ends in [.json]: the
    other files are ignored. The id of every loaded pair is the name of
    such a file without its last 5 characters. The file [USER.JSON] is
    processed by both, with the id [USER]. *)
Theorem C10_json_files_only (rt : Runtime) (files : directory)
    (limit : pyvalue) :
  load_users rt (Some files)
  = load_users rt
      (Some (List.filter (fun file => is_json_file rt (fst file)) files))
  ∧ compute_popular_tags rt (Some files) limit
    = compute_popular_tags rt
        (Some (List.filter (fun file => is_json_file rt (fst file)) files))
        limit
  ∧ (∀ pairs name uid,
        load_users rt (Some files) = Ok pairs → (name, uid) ∈ pairs →
        ∃ fname content,
          (fname, content) ∈ files
          ∧ endswith (lower rt fname) (lit ".json") = true
          ∧ uid = take (length fname - 5) fname)
  ∧ (∀ fname, (5 ≤ length fname)%nat →
        ∃ suffix, length suffix = 5%nat ∧ fname = uid_of fname ++ suffix)
  ∧ is_json_file rt (lit "USER.JSON") = true
  ∧ load_users rt
      (Some [(lit "USER.JSON", Ok (JObj [(lit "name", JStr (lit "Eve"))]))])
    = Ok [(lit "Eve", lit "USER")]
  ∧ count_tags rt
      [(lit "USER.JSON", Ok (JObj [(lit "tag1", JStr (lit "x"))]))]
    = Ok [(lit "x", 1)].
Proof.
  split_and!.
  - by rewrite !load_users_ok, flat_map_contribution_filter.
  - unfold compute_popular_tags, count_tags. by rewrite filter_filter_same.
  - intros pairs name uid. rewrite load_users_ok. intros [= <-] Hin.
    apply list_elem_of_In, in_flat_map in Hin as ([fname content] & Hf & Hin).
    exists fname, content. split; [by apply list_elem_of_In|].
    unfold contribution in Hin. simpl in Hin. fold (is_json_file rt fname).
    destruct (is_json_file rt fname); [|done]. split; [done|].
    unfold load_record in Hin.
    destruct content as [data|e]; simpl in Hin; [|done].
    destruct (record_name data) as [nm|e]; simpl in Hin; [|done].
    destruct (truthy nm); simpl in Hin; [|done].
    destruct Hin as [[= _ <-]|[]]. done.
  - intros fname. apply take_drop_suffix.
  - reflexivity.
  - reflexivity.
  - reflexivity.
Qed.

Lemma C10_json_files_only_witness :
  ∃ fname content,
    (fname, content)
      ∈ [(lit "notes.txt", Raise OSError);
         (lit "Al.Json", Ok (JObj [(lit "name", JStr (lit "Al"))]))]
    ∧ endswith (lower plain_runtime fname) (lit ".json") = true
    ∧ lit "Al" = take (length fname - 5) fname.
Proof.
  apply (proj1 (proj2 (proj2 (C10_json_files_only plain_runtime
           [(lit "notes.txt", Raise OSError);
            (lit "Al.Json", Ok (JObj [(lit "name", JStr (lit "Al"))]))]
           PNone)))
           [(lit "Al", lit "Al")] (lit "Al") (lit "Al")).
  - reflexivity.
  - left.
Defined.

(** * The name bucketer *)

(** C1. A name is bound in a bucket of the result only under the key
    [first = upper(name[0])], only when that key is one of the 36 bucket
    keys, and only to an id it was paired with; every pair whose name is
    not empty and whose key is a bucket key leaves its name bound in that
    bucket. Every other pair is dropped: a name whose uppercased leading
    character is no bucket key (or an empty name) is bound in no bucket. For
    a leading ASCII character the key is its ASCII uppercase, which is a
    bucket key exactly for the letters of either case and the digits. *)
Theorem C1_bucket_assignment (rt : Runtime) (pairs : list (str * str)) :
  (∀ k name uid,
      bucket_lookup (bucket_by_letter rt pairs) k name = Some uid →
      name ≠ [] ∧ k = first_of rt name ∧ k ∈ bucket_keys
      ∧ (name, uid) ∈ pairs)
  ∧ (∀ name uid,
        (name, uid) ∈ pairs → name ≠ [] → first_of rt name ∈ bucket_keys →
        is_Some (bucket_lookup (bucket_by_letter rt pairs)
                   (first_of rt name) name))
  ∧ (∀ name,
        name = [] ∨ first_of rt name ∉ bucket_keys →
        ∀ k, bucket_lookup (bucket_by_letter rt pairs) k name = None)
  ∧ (∀ c rest,
        is_ascii c = true →
        first_of rt (c :: rest) = [ascii_upper c]
        ∧ (first_of rt (c :: rest) ∈ bucket_keys ↔ ascii_alnum c = true)).
Proof.
  assert (∀ k name uid,
      bucket_lookup (bucket_by_letter rt pairs) k name = Some uid →
      name ≠ [] ∧ k = first_of rt name ∧ k ∈ bucket_keys
      ∧ (name, uid) ∈ pairs) as Hsound.
  { intros k name uid H.
    assert (k ∈ bucket_keys) as Hk.
    { apply (bucket_by_letter_keys rt pairs). unfold bucket_lookup in H.
      destruct (bucket_by_letter rt pairs !! k); [eauto|done]. }
    apply bucket_fold_sound in H as [H|(? & ? & ?)]; [|done].
    by rewrite initial_bucket_lookup in H. }
  split_and!.
  - exact Hsound.
  - intros name uid Hin Hne Hkey.
    apply (bucket_fold_complete rt pairs _ name uid); [done..|].
    rewrite initial_buckets_lookup. by rewrite decide_True.
  - intros name Hdrop k.
    destruct (bucket_lookup (bucket_by_letter rt pairs) k name) as [uid|]
      eqn:E; [|done].
    apply Hsound in E as (Hne & -> & Hk & _). by destruct Hdrop.
  - intros c rest Hc. rewrite first_of_ascii by done.
    split; [done|]. by apply ascii_key_alnum.
Qed.

Lemma C1_bucket_assignment_witness :
  bucket_lookup
    (bucket_by_letter plain_runtime
       [(lit "alice", lit "42"); (lit "?x", lit "1")])
    (lit "A") (lit "?x") = None
  ∧ is_Some (bucket_lookup
               (bucket_by_letter plain_runtime
                  [(lit "alice", lit "42"); (lit "?x", lit "1")])
               (first_of plain_runtime (lit "alice")) (lit "alice")).
Proof.
  pose proof (C1_bucket_assignment plain_runtime
                [(lit "alice", lit "42"); (lit "?x", lit "1")])
    as (_ & Hin & Hout & _).
  split.
  - apply Hout. right. apply (bool_decide_unpack _). run.
  - apply (Hin (lit "alice") (lit "42")).
    + left.
    + discriminate.
    + apply (bool_decide_unpack _). run.
Defined.

(** C7. The bucket keys are the 26 letters [A]..[Z] followed by the 10
    digits [0]..[9], 36 different keys. Whatever the pairs are, the keys of
    the result are exactly these; for no pairs every key is bound to the
    empty mapping; and the writer writes one file per key, named after the
    key and holding the mapping of the key. *)
Theorem C7_all_buckets_exist (rt : Runtime) (pairs : list (str * str)) :
  bucket_keys
  = map (fun c => [c]) (lit "ABCDEFGHIJKLMNOPQRSTUVWXYZ0123456789")
  ∧ length bucket_keys = 36%nat
  ∧ NoDup bucket_keys
  ∧ dom (bucket_by_letter rt pairs) = list_to_set bucket_keys
  ∧ (∀ k, k ∈ bucket_keys → bucket_by_letter rt [] !! k = Some ∅)
  ∧ map fst (write_indexes (bucket_by_letter rt pairs))
    = map (fun k => k ++ lit ".json") bucket_keys
  ∧ (∀ k, k ∈ bucket_keys →
          ∃ b, bucket_by_letter rt pairs !! k = Some b
               ∧ (k ++ lit ".json", b)
                   ∈ write_indexes (bucket_by_letter rt pairs)).
Proof.
  split_and!.
  - reflexivity.
  - reflexivity.
  - nodup.
  - apply set_eq. intros k.
    rewrite elem_of_dom, elem_of_list_to_set. apply bucket_by_letter_keys.
  - intros k Hk. unfold bucket_by_letter. simpl.
    rewrite initial_buckets_lookup. by rewrite decide_True.
  - unfold write_indexes. rewrite map_map. reflexivity.
  - intros k Hk.
    destruct (proj2 (bucket_by_letter_keys rt pairs k) Hk) as [b Hb].
    exists b. split; [done|]. unfold write_indexes. rewrite map_fmap.
    apply (list_elem_of_fmap_2' _ _ k); [done|]. by rewrite Hb.
Qed.

Lemma C7_all_buckets_exist_witness :
  bucket_by_letter plain_runtime [] !! lit "Q" = Some ∅.
Proof.
  apply (C7_all_buckets_exist plain_runtime []).
  apply (bool_decide_unpack _). run.
Defined.

(** C8. When pairs share a name, the bucket of the name binds it to the id
    of the last of these pairs: after the pair [(name, uid)], with no later
    pair of that name, the name is bound to [uid] under its key, and every
    binding of the name in the result is this one, so the name is a key of
    one bucket only and has one id. *)
Theorem C8_last_write_wins (rt : Runtime) (before after : list (str * str))
    (name uid : str) :
  name ≠ [] → first_of rt name ∈ bucket_keys →
  (∀ uid', (name, uid') ∉ after) →
  bucket_lookup (bucket_by_letter rt (before ++ (name, uid) :: after))
    (first_of rt name) name = Some uid
  ∧ (∀ k uid',
        bucket_lookup (bucket_by_letter rt (before ++ (name, uid) :: after))
          k name = Some uid' →
        k = first_of rt name ∧ uid' = uid).
Proof.
  intros Hne Hkey Hafter.
  assert (bucket_lookup (bucket_by_letter rt (before ++ (name, uid) :: after))
            (first_of rt name) name = Some uid) as Hlast.
  { unfold bucket_by_letter. rewrite fold_left_app. cbn [fold_left].
    rewrite bucket_fold_other by done.
    rewrite bucket_pair_lookup. rewrite decide_True; [done|].
    split_and!; [done| |done..].
    apply bucket_fold_keys. rewrite initial_buckets_lookup.
    by rewrite decide_True. }
  split; [done|].
  intros k uid' H.
  pose proof (C := bucket_fold_sound rt _ _ _ _ _ H).
  destruct C as [C|(_ & -> & _)]; [by rewrite initial_bucket_lookup in C|].
  split; [done|]. congruence.
Qed.

Lemma C8_last_write_wins_witness :
  bucket_lookup
    (bucket_by_letter plain_runtime
       ([(lit "Bob", lit "1")] ++ (lit "Bob", lit "2")
          :: [(lit "bea", lit "3")]))
    (first_of plain_runtime (lit "Bob")) (lit "Bob") = Some (lit "2").
Proof.
  apply (C8_last_write_wins plain_runtime [(lit "Bob", lit "1")]
           [(lit "bea", lit "3")] (lit "Bob") (lit "2")).
  - discriminate.
  - apply (bool_decide_unpack _). run.
  - intros uid' [[=]|H]%elem_of_cons. by apply elem_of_nil in H.
Defined.

(** * The tag aggregator *)

(** C3. For a record (a file that parses to an object), the list of
    candidates the code collects is the candidates of the [tags] field (the
    string elements of a list; the trimmed comma-separated pieces of a
    string) followed by the string values of the fields whose key,
    lowercased, is "tag" followed by one or more digits. Each candidate is
    trimmed and lowercased, the empty results are discarded, and the count
    of every tag grows by the number of surviving candidates equal to it;
    a tag is in the counter afterwards only if it was there before or is
    a surviving candidate. *)
Theorem C3_tag_candidates (rt : Runtime) (fname : str)
    (ms : list (str * json)) (c : counter) :
  let d := dict_of_members ms in
  record_items rt d = aggregated_candidates d ++ numbered_candidates rt d
  ∧ (∀ k, is_tag_key rt k = true ↔ numbered_key rt k)
  ∧ surviving_tags rt (record_items rt d)
    = List.filter (fun t => bool_decide (t ≠ []))
        (map (fun t => lower rt (strip t)) (record_items rt d))
  ∧ ∃ c', count_file rt c (fname, Ok (JObj ms)) = Ok c'
      ∧ (∀ t, dict_get_default c' t 0
              = dict_get_default c t 0
                + Z.of_nat (occurrences t
                              (surviving_tags rt (record_items rt d))))
      ∧ (∀ t, dict_get c' t = None
              ↔ dict_get c t = None
                ∧ t ∉ surviving_tags rt (record_items rt d)).
Proof.
  intros d. split_and!.
  - unfold record_items. by rewrite collect_keys_app, tags_field_aggregated.
  - apply is_tag_key_numbered.
  - unfold surviving_tags. apply filter_ext. by intros [|].
  - eexists. split; [reflexivity|]. fold d. split.
    + apply count_tags_get.
    + apply count_tags_keys.
Qed.

Lemma C3_tag_candidates_witness :
  numbered_key plain_runtime (lit "TAG2").
Proof.
  apply (proj1 (proj2 (C3_tag_candidates plain_runtime [] [] []))).
  reflexivity.
Defined.

(** * The tag ranker *)

(** C2. For a non-empty count mapping [c] and a ranked output [out]:
    whenever the item of tag [t1] precedes the item of tag [t2] (higher
    count, or equal counts and smaller tag string) and [t2] is in the
    output, [t1] is in the output at an earlier position; when the limit is
    at least the number of tags, every tag of the mapping is in the output.
    Of two different tags exactly one precedes the other, and the relation
    is transitive, so the order is total. The output depends on the counts
    only: a counter holding the same items in another insertion order gives
    the same output. *)
Theorem C2_rank_order (rt : Runtime) (c : counter) (limit : pyvalue)
    (out : list str) :
  dict_wf c → c ≠ [] → rank rt c limit = Ok out →
  (∀ t1 n1 t2 n2 j,
      dict_get c t1 = Some n1 → dict_get c t2 = Some n2 → t1 ≠ t2 →
      precedes (t1, n1) (t2, n2) → out !! j = Some t2 →
      ∃ i, (i < j)%nat ∧ out !! i = Some t1)
  ∧ (∀ n t, py_int rt limit = Ok n → Z.of_nat (length c) ≤ n →
        is_Some (dict_get c t) → t ∈ out)
  ∧ (∀ t1 n1 t2 n2, t1 ≠ t2 →
        (precedes (t1, n1) (t2, n2) ∨ precedes (t2, n2) (t1, n1))
        ∧ ¬ (precedes (t1, n1) (t2, n2) ∧ precedes (t2, n2) (t1, n1)))
  ∧ (∀ x y z, precedes x y → precedes y z → precedes x z)
  ∧ (∀ c', c' ≡ₚ c → rank rt c' limit = Ok out).
Proof.
  intros Hwf Hne Hrank.
  destruct (rank_inv rt c limit out Hne Hrank) as (n & Hn & ->).
  set (m := Z.to_nat (Z.max 0 n)).
  split_and!.
  - intros t1 n1 t2 n2 j H1 H2 Hdiff Hprec Hj.
    rewrite map_fmap, list_lookup_fmap in Hj.
    destruct (take m (sorted sort_key c) !! j) as [[t2' n2']|] eqn:Ej;
      [|done].
    simpl in Hj. injection Hj as ->.
    apply lookup_take_Some in Ej as [Ej Hjm].
    assert ((t2, n2') ∈ c) as Hin2.
    { rewrite <-(sorted_perm sort_key c). by eapply list_elem_of_lookup_2. }
    apply (dict_elem_get c _ _ Hwf) in Hin2.
    assert (n2' = n2) as -> by congruence.
    assert ((t1, n1) ∈ sorted sort_key c) as Hin1.
    { rewrite sorted_perm. by apply dict_get_Some_elem. }
    apply list_elem_of_lookup in Hin1 as [i Ei].
    assert (i < j)%nat as Hij.
    { eapply (strongly_sorted_position sort_key);
        [apply sorted_strongly|exact Ei|exact Ej|].
      by apply precedes_sort_key. }
    exists i. split; [done|].
    rewrite map_fmap, list_lookup_fmap, lookup_take_lt by lia.
    by rewrite Ei.
  - intros n' t Hn' Hlen [cnt Ht]. assert (n' = n) as -> by congruence.
    rewrite take_ge by (rewrite sorted_length; lia).
    rewrite map_fmap. apply (list_elem_of_fmap_2' fst _ (t, cnt)); [|done].
    rewrite sorted_perm. by apply dict_get_Some_elem.
  - intros t1 n1 t2 n2 Hdiff. rewrite !precedes_sort_key. split.
    + apply tuple_ltb_total. unfold sort_key. simpl. congruence.
    + intros [H1 H2]. apply tuple_ltb_asym in H1. congruence.
  - intros x y z. rewrite !precedes_sort_key. apply tuple_ltb_trans.
  - intros c' Hperm.
    rewrite (rank_int rt c' limit n Hn). fold m.
    do 3 f_equal. symmetry.
    apply sorted_perm_invariant; [|done].
    intros x y Hx Hy. by apply (sort_key_inj c).
Qed.

Lemma C2_rank_order_witness :
  ∃ i, (i < 1)%nat ∧ [lit "z"; lit "a"] !! i = Some (lit "z").
Proof.
  refine (proj1 (C2_rank_order plain_runtime
                   [(lit "b", 2); (lit "z", 5); (lit "a", 2)] (PInt 2)
                   [lit "z"; lit "a"] _ _ _)
            (lit "z") 5 (lit "a") 2 1%nat _ _ _ _ _).
  - unfold dict_wf. nodup.
  - discriminate.
  - run.
  - run.
  - run.
  - discriminate.
  - left. simpl. lia.
  - run.
Defined.

(** C5, as the code has it. The ranker keeps the first [max(0, int(limit))]
    items of the sorted sequence, so a negative limit gives the empty
    output. A limit that [int()] rejects is not clamped: with a non-empty
    count mapping the exception of [int()] leaves the ranker, as it does
    for [None]; with an empty mapping the output is empty whatever the
    limit is. *)
Theorem C5_limit_handling (rt : Runtime) (c : counter) (limit : pyvalue) :
  (∀ n, py_int rt limit = Ok n →
        rank rt c limit
        = Ok (map fst (take (Z.to_nat (Z.max 0 n)) (sorted sort_key c))))
  ∧ (∀ n, py_int rt limit = Ok n → n < 0 → rank rt c limit = Ok [])
  ∧ (∀ e, py_int rt limit = Raise e → c ≠ [] → rank rt c limit = Raise e)
  ∧ (c ≠ [] → rank rt c PNone = Raise TypeError)
  ∧ (c = [] → rank rt c limit = Ok []).
Proof.
  split_and!.
  - apply rank_int.
  - intros n Hn Hneg. rewrite (rank_int rt c limit n Hn).
    by replace (Z.to_nat (Z.max 0 n)) with 0%nat by lia.
  - intros e He Hne. unfold rank. destruct c; [done|]. by rewrite He.
  - intros Hne. unfold rank. by destruct c.
  - by intros ->.
Qed.

Lemma C5_limit_handling_witness :
  rank plain_runtime [(lit "x", 1)] (PInt (-3)) = Ok []
  ∧ rank plain_runtime [(lit "x", 1)] (PStr (lit "many")) = Raise ValueError.
Proof.
  split.
  - apply (proj1 (proj2 (C5_limit_handling plain_runtime [(lit "x", 1)]
                           (PInt (-3)))) (-3)); [reflexivity|lia].
  - apply (proj1 (proj2 (proj2 (C5_limit_handling plain_runtime
                                  [(lit "x", 1)] (PStr (lit "many")))))
             ValueError); [reflexivity|discriminate].
Defined.

(** The claim C5 fails on a limit that is not a number: one record with the
    tag "x" and the limit [None] end in a [TypeError], not in an empty or
    shorter output. *)
Lemma C5_counterexample :
  compute_popular_tags plain_runtime
    (Some [(lit "1.json", Ok (JObj [(lit "tags", JArr [JStr (lit "x")])]))])
    PNone
  = Raise TypeError.
Proof. run. Qed.

(** C6. For a count mapping (a dictionary: no tag twice) and a limit
    [n ≥ 0] the ranker returns a sequence of at most [n] tags and of at
    most as many tags as the mapping has different ones; for the empty
    mapping it returns the empty sequence, whatever the limit. For the
    whole of [compute_popular_tags] the second bound is the number of
    different normalized tags observed in the files. *)
Theorem C6_rank_length (rt : Runtime) (c : counter) (n : Z) :
  dict_wf c → 0 ≤ n →
  (∃ out, rank rt c (PInt n) = Ok out
          ∧ Z.of_nat (length out) ≤ n
          ∧ (length out ≤ size (list_to_set (map fst c) : gset str))%nat)
  ∧ (∀ limit, rank rt [] limit = Ok [])
  ∧ (∀ files out,
        compute_popular_tags rt (Some files) (PInt n) = Ok out →
        Z.of_nat (length out) ≤ n
        ∧ (length out
           ≤ size (list_to_set (observed_tags rt files) : gset str))%nat).
Proof.
  assert (∀ c0, dict_wf c0 →
            ∃ out, rank rt c0 (PInt n) = Ok out
                   ∧ (0 ≤ n → Z.of_nat (length out) ≤ n)
                   ∧ (length out
                      ≤ size (list_to_set (map fst c0) : gset str))%nat)
    as Hrank.
  { intros c0 Hwf. eexists. split; [by apply rank_int|].
    rewrite size_list_to_set by exact Hwf.
    rewrite !length_map, length_take, sorted_length. lia. }
  intros Hwf Hn. split_and!.
  - destruct (Hrank c Hwf) as (out & ? & ? & ?). exists out. auto.
  - done.
  - intros files out. unfold compute_popular_tags.
    destruct (count_tags rt files) as [c0|e] eqn:E; simpl; [|done].
    intros Hout.
    destruct (Hrank c0 (count_tags_result_wf rt files c0 E))
      as (out' & Hout' & ? & ?).
    assert (out' = out) as -> by congruence.
    rewrite <-(count_tags_observed rt files c0 E). auto.
Qed.

Lemma C6_rank_length_witness :
  ∃ out, rank plain_runtime [(lit "b", 2); (lit "z", 5); (lit "a", 2)] (PInt 2)
         = Ok out
         ∧ Z.of_nat (length out) ≤ 2
         ∧ (length out
            ≤ size (list_to_set (map fst [(lit "b", 2); (lit "z", 5);
                                          (lit "a", 2)]) : gset str))%nat.
Proof.
  apply (C6_rank_length plain_runtime
           [(lit "b", 2); (lit "z", 5); (lit "a", 2)] 2).
  - unfold dict_wf. nodup.
  - lia.
Defined.

(** * Further properties of the script *)

(** ** Trimming *)

Lemma lstrip_idem (s : str) : lstrip (lstrip s) = lstrip s.
Proof.
  induction s as [|c s IH]; simpl; [done|].
  destruct (isspace c) eqn:E; [done|]. simpl. by rewrite E.
Qed.

Lemma lstrip_length (s : str) : (length (lstrip s) ≤ length s)%nat.
Proof.
  induction s as [|c s IH]; simpl; [done|].
  destruct (isspace c); simpl; lia.
Qed.

Lemma lstrip_head_nonspace (s : str) (c : N) (t : str) :
  lstrip s = c :: t → isspace c = false.
Proof.
  induction s as [|a s IH]; simpl; [done|].
  destruct (isspace a) eqn:E; [done|]. by intros [= <- _].
Qed.

Lemma lstrip_app_nonspace (l : str) (c : N) (r : str) :
  isspace c = false → lstrip (l ++ c :: r) = lstrip l ++ c :: r.
Proof.
  intros Hc. induction l as [|a l IH]; simpl; [by rewrite Hc|].
  by destruct (isspace a).
Qed.

Lemma rstrip_cons_nonspace (c : N) (t : str) :
  isspace c = false → rstrip (c :: t) = c :: rstrip t.
Proof.
  intros Hc. unfold rstrip. simpl.
  by rewrite lstrip_app_nonspace, rev_app_distr.
Qed.

Lemma rstrip_idem (s : str) : rstrip (rstrip s) = rstrip s.
Proof. unfold rstrip. by rewrite rev_involutive, lstrip_idem. Qed.

Lemma lstrip_strip (s : str) : lstrip (strip s) = strip s.
Proof.
  unfold strip. induction s as [|c s IH]; simpl; [done|].
  destruct (isspace c) eqn:E; [done|].
  rewrite rstrip_cons_nonspace by done. simpl. by rewrite E.
Qed.

Lemma rstrip_strip (s : str) : rstrip (strip s) = strip s.
Proof. unfold strip. apply rstrip_idem. Qed.

(** Trimming a trimmed string changes nothing. *)
Lemma strip_idem (s : str) : strip (strip s) = strip s.
Proof.
  unfold strip at 1. by rewrite lstrip_strip, rstrip_strip.
Qed.

Lemma strip_first_nonspace (s : str) (c : N) (t : str) :
  strip s = c :: t → isspace c = false.
Proof.
  intros H. apply (lstrip_head_nonspace (strip s) c t).
  by rewrite lstrip_strip.
Qed.

Lemma strip_last_nonspace (s t : str) (c : N) :
  strip s = t ++ [c] → isspace c = false.
Proof.
  intros H. pose proof (rstrip_strip s) as Hr. rewrite H in Hr.
  unfold rstrip in Hr. rewrite rev_app_distr in Hr. simpl in Hr.
  destruct (isspace c) eqn:E; [|done].
  apply (f_equal (@length N)) in Hr.
  rewrite length_rev, length_app in Hr. simpl in Hr.
  pose proof (lstrip_length (rev t)) as Hl. rewrite length_rev in Hl. lia.
Qed.

(** ** The pairs the loader returns *)

Lemma contribution_shape (rt : Runtime) (file : str * result json)
    (name uid : str) :
  (name, uid) ∈ contribution rt file →
  contribution rt file = [(name, uid)]
  ∧ is_json_file rt (fst file) = true
  ∧ uid = uid_of (fst file)
  ∧ name ≠ []
  ∧ ∃ ms s, snd file = Ok (JObj ms)
            ∧ dict_get (dict_of_members ms) (lit "name") = Some (JStr s)
            ∧ name = strip s.
Proof.
  unfold contribution, load_record.
  destruct (is_json_file rt (fst file)); [|by intros ?%elem_of_nil].
  destruct (snd file) as [data|e]; simpl; [|by intros ?%elem_of_nil].
  destruct data; simpl; try by intros ?%elem_of_nil.
  rewrite record_name_obj.
  destruct (dict_get (dict_of_members members) (lit "name")) as [[]|] eqn:E;
    simpl; try by intros ?%elem_of_nil.
  destruct (strip s) as [|c t] eqn:Es; simpl; [by intros ?%elem_of_nil|].
  intros [= -> ->]%list_elem_of_singleton.
  split_and!; [done..|]. exists members, s. by rewrite Es.
Qed.

Lemma contribution_length (rt : Runtime) (file : str * result json) :
  (length (contribution rt file)
   ≤ if is_json_file rt (fst file) then 1 else 0)%nat.
Proof.
  unfold contribution, load_record.
  destruct (is_json_file rt (fst file)); [|done].
  destruct (snd file) as [data|e]; simpl; [|lia].
  destruct (record_name data) as [name|e]; simpl; [|lia].
  destruct (truthy name); simpl; lia.
Qed.

(** X1. Every pair the loader returns has a name that is not empty and is
    trimmed: trimming it again changes nothing, and neither its first nor
    its last character is whitespace. The loader returns at most one pair
    per [.json] file of the directory. *)
Theorem loaded_pairs_clean (rt : Runtime) (files : directory)
    (pairs : list (str * str)) :
  load_users rt (Some files) = Ok pairs →
  (∀ name uid, (name, uid) ∈ pairs →
      name ≠ [] ∧ strip name = name
      ∧ (∀ c t, name = c :: t → isspace c = false)
      ∧ (∀ t c, name = t ++ [c] → isspace c = false))
  ∧ (length pairs ≤ length (json_files rt files))%nat.
Proof.
  rewrite load_users_ok. intros [= <-]. split.
  - intros name uid Hin.
    apply list_elem_of_In, in_flat_map in Hin as (file & _ & Hin).
    apply list_elem_of_In, contribution_shape in Hin
      as (_ & _ & _ & Hne & ms & s & _ & _ & ->).
    split_and!; [done|apply strip_idem| |].
    + intros c t. apply strip_first_nonspace.
    + intros t c. apply strip_last_nonspace.
  - unfold json_files. induction files as [|file files IH]; simpl; [done|].
    rewrite length_app. pose proof (contribution_length rt file) as Hl.
    destruct (is_json_file rt (fst file)); simpl; lia.
Qed.

Lemma loaded_pairs_clean_witness :
  (∀ c t, lit "Al B" = c :: t → isspace c = false)
  ∧ (length [(lit "Al B", lit "1")]
     ≤ length (json_files plain_runtime
                 [(lit "1.json", Ok (JObj [(lit "name", JStr (lit " Al B "))]));
                  (lit "2.json", Ok JNull)]))%nat.
Proof.
  pose proof (loaded_pairs_clean plain_runtime
                [(lit "1.json", Ok (JObj [(lit "name", JStr (lit " Al B "))]));
                 (lit "2.json", Ok JNull)]
                [(lit "Al B", lit "1")] eq_refl) as [Hn Hl].
  split; [|exact Hl].
  apply (Hn (lit "Al B") (lit "1")). left.
Defined.

(** ** File names and ids *)

Lemma endswith_app (a p : str) : endswith (a ++ p) p = true.
Proof.
  unfold endswith. rewrite rev_app_distr. apply startswith_app. eauto.
Qed.

(** X2. A file named after an id, with the extension [.json] in any mix of
    upper and lower case, is a file the loader processes, and the id the
    loader derives from its name is the id again (for ASCII names, where
    lowercasing is fixed). A record with a name in such a file is loaded
    under that id. *)
Theorem uid_round_trip (rt : Runtime) (uid ext : str) :
  forallb is_ascii uid = true → forallb is_ascii ext = true →
  map ascii_lower ext = lit ".json" →
  is_json_file rt (uid ++ ext) = true
  ∧ uid_of (uid ++ ext) = uid
  ∧ (∀ s, strip s ≠ [] →
          load_users rt (Some [(uid ++ ext,
                                Ok (JObj [(lit "name", JStr s)]))])
          = Ok [(strip s, uid)]).
Proof.
  intros Hu He Hext.
  assert (is_json_file rt (uid ++ ext) = true) as Hj.
  { unfold is_json_file, lower.
    rewrite forallb_app, Hu, He. simpl.
    rewrite map_app, Hext. apply endswith_app. }
  assert (uid_of (uid ++ ext) = uid) as Hid.
  { unfold uid_of. rewrite length_app.
    replace (length ext) with 5%nat
      by (by rewrite <-(length_map ascii_lower ext), Hext).
    replace (length uid + 5 - 5)%nat with (length uid) by lia.
    apply take_app_length. }
  split_and!; [done..|].
  intros s Hs. rewrite load_users_ok. simpl. unfold contribution. simpl.
  rewrite Hj, Hid. unfold load_record. by destruct (strip s).
Qed.

Lemma uid_round_trip_witness :
  is_json_file plain_runtime (lit "u42" ++ lit ".JsOn") = true
  ∧ uid_of (lit "u42" ++ lit ".JsOn") = lit "u42".
Proof.
  pose proof (uid_round_trip plain_runtime (lit "u42") (lit ".JsOn")
                eq_refl eq_refl eq_refl) as (H1 & H2 & _).
  by split.
Defined.

(** ** The loop of the aggregator in closed form *)

Lemma filter_perm {A} (f : A → bool) (l l' : list A) :
  l ≡ₚ l' → List.filter f l ≡ₚ List.filter f l'.
Proof.
  induction 1 as [|x l l' _ IH|x y l|l1 l2 l3 _ IH1 _ IH2]; simpl.
  - done.
  - destruct (f x); [by constructor|done].
  - destruct (f x), (f y); try done. apply perm_swap.
  - by etrans.
Qed.

Lemma existsb_perm {A} (f : A → bool) (l l' : list A) :
  l ≡ₚ l' → existsb f l = existsb f l'.
Proof.
  induction 1 as [|x l l' _ IH|x y l|l1 l2 l3 _ IH1 _ IH2]; simpl.
  - done.
  - by rewrite IH.
  - by destruct (f x), (f y).
  - congruence.
Qed.

Lemma occurrences_app (t : str) (l1 l2 : list str) :
  occurrences t (l1 ++ l2) = (occurrences t l1 + occurrences t l2)%nat.
Proof. unfold occurrences. by rewrite List.filter_app, length_app. Qed.

Lemma occurrences_perm (t : str) (l l' : list str) :
  l ≡ₚ l' → occurrences t l = occurrences t l'.
Proof.
  intros H. unfold occurrences.
  by rewrite (filter_perm (fun y => bool_decide (y = t)) l l' H).
Qed.

Lemma occurrences_elem (t : str) (l : list str) :
  t ∈ l ↔ (1 ≤ occurrences t l)%nat.
Proof.
  unfold occurrences. induction l as [|x l IH]; simpl.
  - split; [by intros ?%elem_of_nil|lia].
  - rewrite elem_of_cons. case_bool_decide as E; simpl.
    + split; [lia|auto].
    + rewrite <-IH. split; [intros [?|?]; [congruence|done]|auto].
Qed.

Section LoopFacts.
Variable rt : Runtime.

Lemma surviving_app (l1 l2 : list str) :
  surviving_tags rt (l1 ++ l2)
  = surviving_tags rt l1 ++ surviving_tags rt l2.
Proof. unfold surviving_tags. by rewrite map_app, List.filter_app. Qed.

Lemma surviving_perm (l l' : list str) :
  l ≡ₚ l' → surviving_tags rt l ≡ₚ surviving_tags rt l'.
Proof.
  intros H. unfold surviving_tags. apply filter_perm.
  rewrite !map_fmap. by apply fmap_Permutation.
Qed.

Lemma surviving_truthy (l : list str) (t : str) :
  t ∈ surviving_tags rt l → t ≠ [] ∧ ∃ x, x ∈ l ∧ t = normalize rt x.
Proof.
  unfold surviving_tags. rewrite list_elem_of_In, filter_In, in_map_iff.
  intros [(x & <- & Hx) Ht]. split; [by intros E; rewrite E in Ht|].
  exists x. by rewrite list_elem_of_In.
Qed.

Lemma file_tags_items (file : str * result json) :
  file_tags rt file = surviving_tags rt (file_items rt file).
Proof.
  unfold file_tags, file_items. by destruct (snd file) as [[]|].
Qed.

Lemma surviving_flat_map (files : directory) :
  surviving_tags rt (flat_map (file_items rt) files)
  = flat_map (file_tags rt) files.
Proof.
  induction files as [|file files IH]; simpl; [done|].
  by rewrite surviving_app, IH, file_tags_items.
Qed.

Lemma count_file_closed (c : counter) (file : str * result json) :
  count_file rt c file
  = if holds_non_object file then Raise AttributeError
    else Ok (fold_left (count_tag rt) (file_items rt file) c).
Proof.
  unfold count_file, holds_non_object, file_items.
  by destruct (snd file) as [[]|].
Qed.

Lemma count_loop_closed (files : directory) (c : counter) :
  for_each (count_file rt) files c
  = if existsb holds_non_object files then Raise AttributeError
    else Ok (fold_left (count_tag rt) (flat_map (file_items rt) files) c).
Proof.
  revert c. induction files as [|file files IH]; intros c;
    cbn [for_each flat_map existsb]; [done|].
  rewrite count_file_closed. destruct (holds_non_object file); simpl; [done|].
  by rewrite IH, fold_left_app.
Qed.

(** The counter of a directory: there is none when a [.json] file holds a
    document that is not an object; otherwise it counts the candidates of
    the [.json] files, file by file. *)
Lemma count_tags_closed (files : directory) :
  count_tags rt files
  = if existsb holds_non_object (json_files rt files)
    then Raise AttributeError
    else Ok (fold_left (count_tag rt)
               (flat_map (file_items rt) (json_files rt files)) []).
Proof. apply count_loop_closed. Qed.

(** The count of every tag of a counter built from nothing. *)
Lemma counted_get (items : list str) (t : str) :
  dict_get (fold_left (count_tag rt) items []) t
  = if bool_decide (t ∈ surviving_tags rt items)
    then Some (Z.of_nat (occurrences t (surviving_tags rt items)))
    else None.
Proof.
  pose proof (count_tags_get rt items [] t) as Hv.
  pose proof (count_tags_keys rt items [] t) as Hk.
  unfold dict_get_default in Hv. simpl in Hv, Hk.
  case_bool_decide as E.
  - destruct (dict_get (fold_left (count_tag rt) items []) t) as [v|];
      [by rewrite Hv|]. by destruct (proj1 Hk eq_refl).
  - by apply Hk.
Qed.

Lemma total_dict_set (c : counter) (k : str) (v : Z) :
  total (dict_set c k v) = total c - dict_get_default c k 0 + v.
Proof.
  unfold total, dict_get_default.
  induction c as [|[k0 v0] c IH]; simpl; [lia|].
  case_decide; simpl; [lia|]. rewrite IH. destruct (dict_get c k); lia.
Qed.

Lemma total_counted (items : list str) (c : counter) :
  total (fold_left (count_tag rt) items c)
  = total c + Z.of_nat (length (surviving_tags rt items)).
Proof.
  revert c. induction items as [|x items IH]; intros c; cbn [fold_left].
  - simpl. lia.
  - rewrite IH, surviving_cons. unfold count_tag.
    destruct (truthy (normalize rt x)); [|done].
    rewrite total_dict_set. simpl. lia.
Qed.
End LoopFacts.

(** Two dictionaries that answer every lookup alike hold the same items. *)
Lemma dict_wf_perm {V} (c c' : pydict V) :
  dict_wf c → dict_wf c' → (∀ k, dict_get c k = dict_get c' k) → c ≡ₚ c'.
Proof.
  intros Hc Hc' Hget. apply NoDup_Permutation.
  - by apply (NoDup_fmap_1 fst).
  - by apply (NoDup_fmap_1 fst).
  - intros [k v]. split; intros Hin.
    + apply dict_get_Some_elem. rewrite <-Hget. by apply dict_elem_get.
    + apply dict_get_Some_elem. rewrite Hget. by apply dict_elem_get.
Qed.

(** The ranker does not look at the insertion order of the counter. *)
Lemma rank_perm (rt : Runtime) (c c' : counter) (limit : pyvalue) :
  dict_wf c → c ≡ₚ c' → rank rt c limit = rank rt c' limit.
Proof.
  intros Hwf Hperm. unfold rank.
  destruct c as [|kv c], c' as [|kv' c'].
  - done.
  - by apply Permutation_nil_cons in Hperm.
  - symmetry in Hperm. by apply Permutation_nil_cons in Hperm.
  - rewrite (sorted_perm_invariant sort_key (kv :: c) (kv' :: c')); [done| |done].
    intros x y Hx Hy. by apply (sort_key_inj (kv :: c)).
Qed.

Lemma non_object_file (rt : Runtime) (files : directory) :
  existsb holds_non_object (json_files rt files) = true
  ↔ ∃ fname data, (fname, Ok data) ∈ files
                  ∧ is_json_file rt fname = true
                  ∧ ∀ ms, data ≠ JObj ms.
Proof.
  rewrite existsb_exists. unfold json_files. split.
  - intros ([fname content] & [Hin Hj]%List.filter_In & Hbad). simpl in Hj.
    unfold holds_non_object in Hbad. simpl in Hbad.
    destruct content as [data|e]; [|done]. exists fname, data.
    split_and!; [by apply list_elem_of_In|done|].
    intros ms ->. done.
  - intros (fname & data & Hin & Hj & Hbad). exists (fname, Ok data).
    split; [apply List.filter_In; split; [by apply list_elem_of_In|done]|].
    unfold holds_non_object. simpl. destruct data; try done.
    exfalso. by eapply Hbad.
Qed.

Lemma rank_out (rt : Runtime) (c : counter) (limit : pyvalue)
    (out : list str) :
  rank rt c limit = Ok out →
  ∃ m, out = map fst (take m (sorted sort_key c)).
Proof.
  destruct c as [|kv c].
  - intros [= <-]. by exists 0%nat.
  - intros H. destruct (rank_inv rt (kv :: c) limit out) as (n & _ & ->);
      [done..|]. eauto.
Qed.

Lemma strongly_sorted_lookup {A} (R : relation A) (l : list A) (i j : nat)
    (x y : A) :
  StronglySorted R l → l !! i = Some x → l !! j = Some y → (i < j)%nat →
  R x y.
Proof.
  intros Hl. revert i j. induction Hl as [|z l Hl IH Hz]; intros i j Hi Hj Hij;
    [done|].
  destruct j as [|j]; [lia|]. destruct i as [|i]; simpl in *.
  - injection Hi as ->. rewrite Forall_forall in Hz. apply Hz.
    by eapply list_elem_of_lookup_2.
  - apply (IH i j); [done..|lia].
Qed.

(** * The tag aggregator and ranker, end to end *)

(** X3. A [.json] file that cannot be opened or parsed is skipped by the
    aggregator: the result is the one of the directory without it. *)
Theorem tags_skip_unreadable (rt : Runtime) (files1 files2 : directory)
    (fname : str) (e : exn) (limit : pyvalue) :
  compute_popular_tags rt (Some (files1 ++ (fname, Raise e) :: files2)) limit
  = compute_popular_tags rt (Some (files1 ++ files2)) limit.
Proof.
  unfold compute_popular_tags. rewrite !count_tags_closed. unfold json_files.
  rewrite !List.filter_app. simpl.
  destruct (is_json_file rt fname); [|done].
  rewrite !existsb_app, !flat_map_app. simpl. done.
Qed.

(** The count the aggregator holds for a tag. *)
Lemma aggregated_get (rt : Runtime) (files : directory) (c : counter)
    (t : str) :
  count_tags rt files = Ok c →
  dict_get c t
  = if bool_decide (t ∈ observed_tags rt files)
    then Some (Z.of_nat (occurrences t (observed_tags rt files)))
    else None.
Proof.
  rewrite count_tags_closed.
  destruct (existsb holds_non_object (json_files rt files)); [done|].
  intros [= <-]. rewrite counted_get. unfold observed_tags.
  by rewrite surviving_flat_map.
Qed.

Lemma observed_nonempty (rt : Runtime) (files : directory) (t : str) :
  t ∈ observed_tags rt files → t ≠ [].
Proof.
  unfold observed_tags. rewrite <-surviving_flat_map.
  by intros [? _]%surviving_truthy.
Qed.

Lemma aggregated_keys (rt : Runtime) (files : directory) (c : counter)
    (t : str) :
  count_tags rt files = Ok c →
  t ∈ map fst c ↔ t ∈ observed_tags rt files.
Proof.
  intros Hc. pose proof (dict_get_None c t) as Hn.
  rewrite (aggregated_get rt files c t Hc) in Hn.
  case_bool_decide as E; split; try done.
  - intros _. destruct (decide (t ∈ map fst c)) as [|Hout]; [done|].
    by apply Hn in Hout.
  - intros Hin. by destruct (proj1 Hn eq_refl).
Qed.

(** The tags of a ranked list are tags of the counter. *)
Lemma ranked_in_counter (c : counter) (m : nat) (t : str) :
  t ∈ map fst (take m (sorted sort_key c)) → t ∈ map fst c.
Proof.
  intros Hin.
  assert (map fst (sorted sort_key c) ≡ₚ map fst c) as <-.
  { rewrite !map_fmap. apply fmap_Permutation, sorted_perm. }
  rewrite map_fmap, fmap_take in Hin. rewrite map_fmap.
  eapply elem_of_sublist; [exact Hin|]. apply sublist_take.
Qed.

(** X4. When the aggregator returns a counter, the tags in it are exactly
    the normalized, non-empty tags observed in the records of the [.json]
    files, each with the number of its occurrences there; so every count
    is at least 1, no tag is the empty string, and the counts add up to the
    number of observed tags. *)
Theorem counts_are_occurrences (rt : Runtime) (files : directory)
    (c : counter) :
  count_tags rt files = Ok c →
  (∀ t, dict_get c t
        = if bool_decide (t ∈ observed_tags rt files)
          then Some (Z.of_nat (occurrences t (observed_tags rt files)))
          else None)
  ∧ (∀ t n, dict_get c t = Some n → 1 ≤ n ∧ t ≠ [])
  ∧ total c = Z.of_nat (length (observed_tags rt files)).
Proof.
  intros Hc. split_and!.
  - intros t. by apply aggregated_get.
  - intros t n. rewrite (aggregated_get rt files c t Hc).
    case_bool_decide as E; [|done].
    intros [= <-]. split; [apply occurrences_elem in E; lia|].
    by apply observed_nonempty in E.
  - revert Hc. rewrite count_tags_closed.
    destruct (existsb holds_non_object (json_files rt files)); [done|].
    intros [= <-]. rewrite total_counted, surviving_flat_map.
    unfold total. simpl. unfold observed_tags, json_files. lia.
Qed.

Lemma counts_are_occurrences_witness :
  dict_get [(lit "y", 1); (lit "x", 2)] (lit "x")
  = if bool_decide
         (lit "x" ∈ observed_tags plain_runtime
            [(lit "9.json", Ok (JObj [(lit "tag1", JStr (lit "X"));
                                      (lit "tag2", JStr (lit " x"));
                                      (lit "tags", JStr (lit "y,"))]))])
    then Some (Z.of_nat
                 (occurrences (lit "x")
                    (observed_tags plain_runtime
                       [(lit "9.json",
                         Ok (JObj [(lit "tag1", JStr (lit "X"));
                                   (lit "tag2", JStr (lit " x"));
                                   (lit "tags", JStr (lit "y,"))]))])))
    else None.
Proof.
  apply (counts_are_occurrences plain_runtime
           [(lit "9.json", Ok (JObj [(lit "tag1", JStr (lit "X"));
                                     (lit "tag2", JStr (lit " x"));
                                     (lit "tags", JStr (lit "y,"))]))]
           [(lit "y", 1); (lit "x", 2)]).
  run.
Defined.

Lemma counted_perm (rt : Runtime) (items items' : list str) :
  items ≡ₚ items' →
  fold_left (count_tag rt) items [] ≡ₚ fold_left (count_tag rt) items' [].
Proof.
  intros Hperm.
  assert (dict_wf ([] : counter)) as Hnil by (unfold dict_wf; constructor).
  apply dict_wf_perm; [by apply count_tags_wf..|].
  intros t. rewrite !counted_get.
  pose proof (surviving_perm rt items items' Hperm) as Hs.
  rewrite (occurrences_perm t _ _ Hs).
  rewrite (bool_decide_ext (t ∈ surviving_tags rt items)
             (t ∈ surviving_tags rt items')); [done|].
  by rewrite Hs.
Qed.

(** Counting and ranking the files of a directory in another order. *)
Lemma count_rank_perm (rt : Runtime) (files files' : directory)
    (limit : pyvalue) :
  files ≡ₚ files' →
  (c ← count_tags rt files; rank rt c limit)
  = (c ← count_tags rt files'; rank rt c limit).
Proof.
  intros Hperm. rewrite !count_tags_closed.
  assert (json_files rt files ≡ₚ json_files rt files') as Hj
    by (by apply filter_perm).
  rewrite (existsb_perm _ _ _ Hj).
  destruct (existsb holds_non_object (json_files rt files')); [done|].
  simpl. apply rank_perm.
  - apply count_tags_wf. unfold dict_wf. constructor.
  - apply counted_perm. by apply Permutation_flat_map.
Qed.

(** X5. The ranked tags do not depend on the order in which the directory
    lists its files: two listings of the same files give the same result,
    the same failure included. *)
Theorem tags_order_independent (rt : Runtime) (files files' : directory)
    (limit : pyvalue) :
  files ≡ₚ files' →
  compute_popular_tags rt (Some files) limit
  = compute_popular_tags rt (Some files') limit.
Proof.
  intros Hperm. unfold compute_popular_tags. by apply count_rank_perm.
Qed.

Lemma tags_order_independent_witness :
  compute_popular_tags plain_runtime
    (Some [(lit "1.json", Ok (JObj [(lit "tags", JStr (lit "b,a"))]));
           (lit "2.json", Ok (JObj [(lit "tag7", JStr (lit "A"))]))])
    POPULAR_TAG_LIMIT
  = compute_popular_tags plain_runtime
      (Some [(lit "2.json", Ok (JObj [(lit "tag7", JStr (lit "A"))]));
             (lit "1.json", Ok (JObj [(lit "tags", JStr (lit "b,a"))]))])
      POPULAR_TAG_LIMIT.
Proof.
  apply (tags_order_independent plain_runtime). apply perm_swap.
Defined.

(** X6. The list [compute_popular_tags] returns has no tag twice, and each
    of its tags is a non-empty normalized tag observed in the records. When
    the limit is at least the number of different observed tags, every
    observed tag is in the list. *)
Theorem popular_tags_distinct_observed (rt : Runtime) (files : directory)
    (limit : pyvalue) (out : list str) :
  compute_popular_tags rt (Some files) limit = Ok out →
  NoDup out
  ∧ (∀ t, t ∈ out → t ≠ [] ∧ t ∈ observed_tags rt files)
  ∧ (∀ n, py_int rt limit = Ok n →
          Z.of_nat (size (list_to_set (observed_tags rt files) : gset str))
          ≤ n →
          ∀ t, t ∈ observed_tags rt files → t ∈ out).
Proof.
  unfold compute_popular_tags.
  destruct (count_tags rt files) as [c|e] eqn:Hc; simpl; [|done].
  intros Hrank.
  pose proof (count_tags_result_wf rt files c Hc) as Hwf.
  assert (map fst (sorted sort_key c) ≡ₚ map fst c) as Hperm.
  { rewrite !map_fmap. apply fmap_Permutation, sorted_perm. }
  split_and!.
  - destruct (rank_out rt c limit out Hrank) as [m ->].
    rewrite map_fmap, fmap_take.
    apply (sublist_NoDup _ (fst <$> sorted sort_key c));
      [|apply sublist_take].
    rewrite <-map_fmap, Hperm. exact Hwf.
  - intros t Hin.
    destruct (rank_out rt c limit out Hrank) as [m ->].
    apply ranked_in_counter, (aggregated_keys rt files c t Hc) in Hin.
    split; [by eapply observed_nonempty|done].
  - intros n Hn Hsize t Hin.
    rewrite (rank_int rt c limit n Hn) in Hrank. injection Hrank as <-.
    rewrite <-(count_tags_observed rt files c Hc) in Hsize.
    rewrite size_list_to_set in Hsize by exact Hwf.
    rewrite length_map in Hsize.
    rewrite take_ge by (rewrite sorted_length; lia).
    rewrite Hperm. by apply (aggregated_keys rt files c t Hc).
Qed.

Lemma popular_tags_distinct_observed_witness :
  NoDup [lit "a"; lit "b"].
Proof.
  apply (popular_tags_distinct_observed plain_runtime
           [(lit "1.json", Ok (JObj [(lit "tags", JStr (lit "b,a,A"))]))]
           POPULAR_TAG_LIMIT [lit "a"; lit "b"]).
  run.
Defined.

(** X7. The list keeps the most frequent tags: a tag that is observed but
    left out of the returned list occurs no more often than any tag in the
    list, and when the two occur equally often the tag in the list is the
    smaller string. *)
Theorem popular_tags_are_top (rt : Runtime) (files : directory)
    (limit : pyvalue) (out : list str) (t t' : str) :
  compute_popular_tags rt (Some files) limit = Ok out →
  t ∈ out → t' ∈ observed_tags rt files → t' ∉ out →
  (occurrences t' (observed_tags rt files)
   ≤ occurrences t (observed_tags rt files))%nat
  ∧ (occurrences t' (observed_tags rt files)
     = occurrences t (observed_tags rt files) →
     str_ltb t t' = true).
Proof.
  intros Hout Hin Hobs' Hnotin.
  unfold compute_popular_tags in Hout.
  destruct (count_tags rt files) as [c|e] eqn:Hc; simpl in Hout; [|done].
  pose proof (count_tags_result_wf rt files c Hc) as Hwf.
  destruct (rank_out rt c limit out Hout) as [m ->].
  assert (t ∈ observed_tags rt files) as Hobs.
  { by apply (aggregated_keys rt files c t Hc), (ranked_in_counter c m). }
  pose proof (aggregated_get rt files c t Hc) as Ht.
  pose proof (aggregated_get rt files c t' Hc) as Ht'.
  set (obs := observed_tags rt files) in *.
  rewrite bool_decide_eq_true_2 in Ht, Ht' by done.
  apply dict_get_Some_elem in Ht, Ht'.
  rewrite <-(sorted_perm sort_key c) in Ht, Ht'.
  rewrite map_fmap in Hin, Hnotin.
  apply list_elem_of_fmap in Hin as ([t0 n0] & Ht0 & Hin). simpl in Ht0.
  subst t0. apply list_elem_of_lookup in Hin as [i Hi].
  apply lookup_take_Some in Hi as [Hi Him].
  assert (n0 = Z.of_nat (occurrences t obs)) as ->.
  { apply list_elem_of_lookup_2 in Hi.
    rewrite sorted_perm in Hi, Ht.
    pose proof (dict_wf_key_inj c _ _ Hwf Hi Ht eq_refl). congruence. }
  apply list_elem_of_lookup in Ht' as [j Hj].
  assert (m ≤ j)%nat as Hmj.
  { destruct (decide (m ≤ j)%nat) as [|Hlt]; [done|]. exfalso.
    apply Hnotin.
    apply (list_elem_of_fmap_2' fst _ (t', Z.of_nat (occurrences t' obs)));
      [|done].
    apply list_elem_of_lookup. exists j. rewrite lookup_take_lt by lia.
    done. }
  pose proof (strongly_sorted_lookup _ _ i j _ _
                (sorted_strongly sort_key c) Hi Hj ltac:(lia)) as Hle.
  unfold key_le, tuple_ltb, sort_key in Hle. simpl in Hle.
  assert (t ≠ t') as Hne.
  { intros ->. apply Hnotin.
    apply (list_elem_of_fmap_2' fst _ (t', Z.of_nat (occurrences t' obs)));
      [|done].
    apply list_elem_of_lookup. exists i. by rewrite lookup_take_lt by lia. }
  destruct (Z.eqb_spec (- Z.of_nat (occurrences t' obs))
                       (- Z.of_nat (occurrences t obs))) as [E|E].
  - split; [lia|]. intros _.
    destruct (str_ltb_total t t' Hne) as [?|?]; [done|congruence].
  - apply Z.ltb_ge in Hle. split; lia.
Qed.

Lemma popular_tags_are_top_witness :
  (occurrences (lit "b")
     (observed_tags plain_runtime
        [(lit "1.json", Ok (JObj [(lit "tags", JStr (lit "b,a,A"))]))])
   ≤ occurrences (lit "a")
       (observed_tags plain_runtime
          [(lit "1.json", Ok (JObj [(lit "tags", JStr (lit "b,a,A"))]))]))%nat.
Proof.
  apply (popular_tags_are_top plain_runtime
           [(lit "1.json", Ok (JObj [(lit "tags", JStr (lit "b,a,A"))]))]
           (PInt 1) [lit "a"] (lit "a") (lit "b")).
  - run.
  - left.
  - apply (bool_decide_unpack _). run.
  - apply (bool_decide_unpack _). run.
Defined.

(** * The bucketer and the order of the pairs *)

(** With no name twice among the pairs, a name is bound to an id exactly
    when the two are paired and the key of the name is a bucket key. *)
Lemma bucket_lookup_distinct (rt : Runtime) (pairs : list (str * str))
    (k name uid : str) :
  NoDup (map fst pairs) →
  bucket_lookup (bucket_by_letter rt pairs) k name = Some uid
  ↔ name ≠ [] ∧ k = first_of rt name ∧ k ∈ bucket_keys
    ∧ (name, uid) ∈ pairs.
Proof.
  intros Hnd. split.
  - intros H.
    assert (k ∈ bucket_keys) as Hk.
    { apply (bucket_by_letter_keys rt pairs). unfold bucket_lookup in H.
      destruct (bucket_by_letter rt pairs !! k); [eauto|done]. }
    apply bucket_fold_sound in H as [H|(? & ? & ?)]; [|done].
    by rewrite initial_bucket_lookup in H.
  - intros (Hne & -> & Hk & Hin).
    destruct (bucket_fold_complete rt pairs initial_buckets name uid)
      as [uid' Hu]; [done..| |].
    { rewrite initial_buckets_lookup. by rewrite decide_True. }
    fold (bucket_by_letter rt pairs) in Hu. rewrite Hu. f_equal.
    apply bucket_fold_sound in Hu as [Hu|(_ & _ & Hin')];
      [by rewrite initial_bucket_lookup in Hu|].
    pose proof (dict_wf_key_inj pairs (name, uid') (name, uid) Hnd Hin' Hin
                  eq_refl). congruence.
Qed.

(** Buckets that bind every name alike are equal. *)
Lemma buckets_ext (rt : Runtime) (pairs pairs' : list (str * str)) :
  (∀ k name, bucket_lookup (bucket_by_letter rt pairs) k name
             = bucket_lookup (bucket_by_letter rt pairs') k name) →
  bucket_by_letter rt pairs = bucket_by_letter rt pairs'.
Proof.
  intros Hsame. apply map_eq. intros k.
  pose proof (bucket_by_letter_keys rt pairs k) as H1.
  pose proof (bucket_by_letter_keys rt pairs' k) as H2.
  destruct (bucket_by_letter rt pairs !! k) as [b|] eqn:E1,
           (bucket_by_letter rt pairs' !! k) as [b'|] eqn:E2.
  - f_equal. apply map_eq. intros name. specialize (Hsame k name).
    unfold bucket_lookup in Hsame. by rewrite E1, E2 in Hsame.
  - assert (is_Some (None : option bucket)) as [? ?]; [|done].
    apply H2, H1. eauto.
  - assert (is_Some (None : option bucket)) as [? ?]; [|done].
    apply H1, H2. eauto.
  - done.
Qed.

Lemma bucket_lookup_perm (rt : Runtime) (pairs pairs' : list (str * str))
    (k name : str) :
  NoDup (map fst pairs) → pairs ≡ₚ pairs' →
  bucket_lookup (bucket_by_letter rt pairs) k name
  = bucket_lookup (bucket_by_letter rt pairs') k name.
Proof.
  intros Hnd Hperm.
  assert (NoDup (map fst pairs')) as Hnd'.
  { rewrite map_fmap in *. by rewrite <-Hperm. }
  apply option_eq. intros uid.
  rewrite !bucket_lookup_distinct by done. by rewrite Hperm.
Qed.

(** X8. When no two pairs have the same name, the buckets do not depend on
    the order of the pairs. *)
Theorem buckets_order_independent (rt : Runtime)
    (pairs pairs' : list (str * str)) :
  NoDup (map fst pairs) → pairs ≡ₚ pairs' →
  bucket_by_letter rt pairs = bucket_by_letter rt pairs'.
Proof.
  intros Hnd Hperm. apply buckets_ext. intros k name.
  by apply bucket_lookup_perm.
Qed.

Lemma buckets_order_independent_witness :
  bucket_by_letter plain_runtime [(lit "ann", lit "1"); (lit "Al", lit "2")]
  = bucket_by_letter plain_runtime [(lit "Al", lit "2"); (lit "ann", lit "1")].
Proof.
  apply (buckets_order_independent plain_runtime).
  - nodup.
  - apply perm_swap.
Defined.

(** * The two styles of the tags field *)

Lemma string_elements_strs (l : list str) : string_elements (map JStr l) = l.
Proof. induction l as [|x l IH]; simpl; [done|]. by f_equal. Qed.

Lemma numbered_candidates_set (rt : Runtime) (d : pydict json) (k : str)
    (v v' : json) :
  is_tag_key rt k = false →
  numbered_candidates rt (dict_set d k v)
  = numbered_candidates rt (dict_set d k v').
Proof.
  intros Hk. unfold numbered_candidates.
  induction d as [|[k0 v0] d IH]; simpl.
  - rewrite Hk. by destruct v, v'.
  - case_decide as E; simpl; [|by rewrite IH].
    subst k0. rewrite Hk. by destruct v, v'.
Qed.

Lemma count_tag_strip (rt : Runtime) (c : counter) (x : str) :
  count_tag rt c (strip x) = count_tag rt c x.
Proof. unfold count_tag, normalize. by rewrite strip_idem. Qed.

Lemma count_stripped (rt : Runtime) (l : list str) (c : counter) :
  fold_left (count_tag rt) (map strip l) c = fold_left (count_tag rt) l c.
Proof.
  revert c. induction l as [|x l IH]; intros c; simpl; [done|].
  by rewrite count_tag_strip, IH.
Qed.

Lemma dict_of_members_snoc {V} (ms : list (str * V)) (k : str) (v : V) :
  dict_of_members (ms ++ [(k, v)]) = dict_set (dict_of_members ms) k v.
Proof. unfold dict_of_members. by rewrite fold_left_app. Qed.

(** X9. A record whose [tags] field is a comma-separated string is counted
    like the record whose [tags] field is the list of the pieces of that
    string: the counter after the file is the same. *)
Theorem tags_string_like_list (rt : Runtime) (fname : str)
    (ms : list (str * json)) (s : str) (c : counter) :
  count_file rt c (fname, Ok (JObj (ms ++ [(lit "tags", JStr s)])))
  = count_file rt c
      (fname,
       Ok (JObj (ms ++ [(lit "tags", JArr (map JStr (split_on comma s)))]))).
Proof.
  unfold count_file. simpl. f_equal.
  rewrite !dict_of_members_snoc. unfold record_items.
  rewrite !collect_keys_app, !fold_left_app.
  rewrite (numbered_candidates_set rt _ (lit "tags") (JStr s)
             (JArr (map JStr (split_on comma s)))) by reflexivity.
  f_equal. unfold tags_field_items, dict_get_default.
  rewrite !dict_get_set, !decide_True by done.
  fold (string_elements (map JStr (split_on comma s))).
  by rewrite string_elements_strs, count_stripped.
Qed.

(** * The run of the script *)

Section MainFacts.
Variable rt : Runtime.

Lemma load_users_loaded (snow : store) :
  load_users rt snow = Ok (loaded rt snow).
Proof. destruct snow as [files|]; [apply load_users_ok|done]. Qed.

(** The run: the index files first, then the tag file unless the tag
    computation raises. *)
Lemma main_closed (snow : store) :
  main rt snow
  = match compute_popular_tags rt snow POPULAR_TAG_LIMIT with
    | Raise e => (index_log rt snow, Raise e)
    | Ok tags =>
        (index_log rt snow
           ++ [TagFile (path_join POPULAR_DIR POPULAR_TAG_FILE) tags],
         Ok ())
    end.
Proof. unfold main. by rewrite load_users_loaded. Qed.




Lemma index_log_elem (snow : store) (path : str) (mapping : bucket) :
  IndexFile path mapping ∈ index_log rt snow
  ↔ ∃ k, k ∈ bucket_keys
         ∧ path = path_join OUT_DIR (k ++ lit ".json")
         ∧ bucket_by_letter rt (loaded rt snow) !! k = Some mapping.
Proof.
  unfold index_log, write_indexes. rewrite map_map, map_fmap.
  rewrite list_elem_of_fmap. split.
  - intros (k & [= -> ->] & Hk). exists k. split_and!; [done..|].
    destruct (proj2 (bucket_by_letter_keys rt (loaded rt snow) k) Hk)
      as [b Hb]. by rewrite Hb.
  - intros (k & Hk & -> & Hb). exists k. split; [|done]. simpl.
    by rewrite Hb.
Qed.

Lemma main_index_files (snow : store) (path : str) (mapping : bucket) :
  IndexFile path mapping ∈ fst (main rt snow)
  ↔ IndexFile path mapping ∈ index_log rt snow.
Proof.
  rewrite main_closed.
  destruct (compute_popular_tags rt snow POPULAR_TAG_LIMIT); cbn [fst];
    [|done].
  rewrite elem_of_app, list_elem_of_singleton. split; [|auto].
  by intros [?|?].
Qed.
End MainFacts.

(** X10. Every entry of an index file written by the run comes from a
    record: a name bound to an id in a file is the trimmed, non-empty
    [name] string of the object in a [.json] file whose name without its
    last 5 characters is the id, and the file is the index of the key of
    the name. Conversely, the name of every such record whose key is a
    bucket key is bound in that index file. *)
Theorem index_entries_from_records (rt : Runtime) (files : directory) :
  (∀ path mapping name uid,
      IndexFile path mapping ∈ fst (main rt (Some files)) →
      mapping !! name = Some uid →
      path = path_join OUT_DIR (first_of rt name ++ lit ".json")
      ∧ name ≠ []
      ∧ ∃ fname ms s,
          (fname, Ok (JObj ms)) ∈ files
          ∧ is_json_file rt fname = true
          ∧ uid = uid_of fname
          ∧ dict_get (dict_of_members ms) (lit "name") = Some (JStr s)
          ∧ name = strip s)
  ∧ (∀ fname ms s,
        (fname, Ok (JObj ms)) ∈ files →
        is_json_file rt fname = true →
        dict_get (dict_of_members ms) (lit "name") = Some (JStr s) →
        strip s ≠ [] → first_of rt (strip s) ∈ bucket_keys →
        ∃ mapping,
          IndexFile (path_join OUT_DIR (first_of rt (strip s) ++ lit ".json"))
            mapping ∈ fst (main rt (Some files))
          ∧ is_Some (mapping !! strip s)).
Proof.
  split.
  - intros path mapping name uid Hin Hname.
    apply main_index_files, index_log_elem in Hin as (k & Hk & -> & Hb).
    assert (bucket_lookup (bucket_by_letter rt (loaded rt (Some files)))
              k name = Some uid) as Hl.
    { unfold bucket_lookup. by rewrite Hb. }
    apply bucket_fold_sound in Hl as [Hl|(Hne & -> & Hin)];
      [by rewrite initial_bucket_lookup in Hl|].
    split_and!; [done..|].
    apply list_elem_of_In, in_flat_map in Hin as ([fname content] & Hf & Hin).
    apply list_elem_of_In, contribution_shape in Hin
      as (_ & Hj & -> & _ & ms & s & Hc & Hs & ->).
    simpl in *. subst content. exists fname, ms, s.
    split_and!; [by apply list_elem_of_In|done..].
  - intros fname ms s Hin Hj Hs Hne Hkey.
    assert ((strip s, uid_of fname) ∈ loaded rt (Some files)) as Hpair.
    { apply list_elem_of_In, in_flat_map. exists (fname, Ok (JObj ms)).
      split; [by apply list_elem_of_In|]. unfold contribution. simpl.
      rewrite Hj. unfold load_record. simpl. rewrite record_name_obj, Hs.
      simpl. destruct (strip s); [done|]. by left. }
    destruct (bucket_fold_complete rt _ initial_buckets _ _ Hpair Hne)
      as [uid' Hu].
    { rewrite initial_buckets_lookup. by rewrite decide_True. }
    fold (bucket_by_letter rt (loaded rt (Some files))) in Hu.
    unfold bucket_lookup in Hu.
    destruct (bucket_by_letter rt (loaded rt (Some files))
                !! first_of rt (strip s)) as [b|] eqn:Eb; [|done].
    exists b. split; [|by exists uid'].
    apply main_index_files, index_log_elem. by exists (first_of rt (strip s)).
Qed.

Lemma index_entries_from_records_witness :
  ∃ mapping,
    IndexFile (path_join OUT_DIR
                 (first_of plain_runtime (strip (lit " bo ")) ++ lit ".json"))
      mapping
      ∈ fst (main plain_runtime
               (Some [(lit "7.json",
                       Ok (JObj [(lit "name", JStr (lit " bo "))]))]))
    ∧ is_Some (mapping !! strip (lit " bo ")).
Proof.
  apply (proj2 (index_entries_from_records plain_runtime
                  [(lit "7.json", Ok (JObj [(lit "name", JStr (lit " bo "))]))])
           (lit "7.json") [(lit "name", JStr (lit " bo "))] (lit " bo ")).
  - left.
  - reflexivity.
  - reflexivity.
  - discriminate.
  - apply (bool_decide_unpack _). run.
Defined.


(** X12. With no [.json] file in the directory, or no directory at all,
    the run writes the 36 index files with empty mappings and the tag file
    with the empty list, and ends normally. *)
Theorem main_without_records (rt : Runtime) (snow : store) :
  (∀ files, snow = Some files → json_files rt files = []) →
  main rt snow
  = (map (fun k => IndexFile (lit "indexes/" ++ k ++ lit ".json") ∅)
         bucket_keys
       ++ [TagFile (lit "popular/tag.json") []],
     Ok ()).
Proof.
  intros Hnone. rewrite main_closed.
  assert (loaded rt snow = []) as Hl.
  { destruct snow as [files|]; [|done]. simpl.
    rewrite <-flat_map_contribution_filter.
    fold (json_files rt files). by rewrite (Hnone files). }
  assert (compute_popular_tags rt snow POPULAR_TAG_LIMIT = Ok []) as ->.
  { destruct snow as [files|]; [|done]. simpl.
    rewrite count_tags_closed. by rewrite (Hnone files). }
  unfold index_log. rewrite Hl. reflexivity.
Qed.

Lemma main_without_records_witness :
  main plain_runtime (Some [(lit "README.md", Raise UnicodeDecodeError)])
  = (map (fun k => IndexFile (lit "indexes/" ++ k ++ lit ".json") ∅)
         bucket_keys
       ++ [TagFile (lit "popular/tag.json") []],
     Ok ()).
Proof.
  apply (main_without_records plain_runtime).
  intros files [= <-]. reflexivity.
Defined.




(** * Every way the tag computation fails *)

Lemma aggregated_empty (rt : Runtime) (files : directory) (c : counter) :
  count_tags rt files = Ok c → c = [] ↔ observed_tags rt files = [].
Proof.
  intros Hc. split.
  - intros ->. destruct (observed_tags rt files) as [|t l] eqn:E; [done|].
    assert (t ∈ map fst ([] : counter)) as Hin.
    { apply (aggregated_keys rt files [] t Hc). rewrite E. left. }
    by apply elem_of_nil in Hin.
  - intros E. destruct c as [|[t n] c]; [done|].
    assert (t ∈ observed_tags rt files) as Hin.
    { apply (aggregated_keys rt files _ t Hc). left. }
    rewrite E in Hin. by apply elem_of_nil in Hin.
Qed.

(** X14. [compute_popular_tags] fails in two ways only: with an
    [AttributeError] when a [.json] file holds a document that is not an
    object, and otherwise with the exception of [int(limit)] when [int]
    rejects the limit and at least one tag was observed. In particular a
    limit that [int] rejects is harmless as long as no record has a tag. *)
Theorem popular_tags_failures (rt : Runtime) (files : directory)
    (limit : pyvalue) (e : exn) :
  compute_popular_tags rt (Some files) limit = Raise e
  ↔ (e = AttributeError
     ∧ ∃ fname data, (fname, Ok data) ∈ files
                     ∧ is_json_file rt fname = true
                     ∧ ∀ ms, data ≠ JObj ms)
    ∨ ((∀ fname data, (fname, Ok data) ∈ files →
                      is_json_file rt fname = true → ∃ ms, data = JObj ms)
       ∧ observed_tags rt files ≠ []
       ∧ py_int rt limit = Raise e).
Proof.
  unfold compute_popular_tags.
  destruct (count_tags rt files) as [c|e0] eqn:Hc; simpl.
  - pose proof (aggregated_empty rt files c Hc) as Hempty.
    pose proof Hc as Hclosed. rewrite count_tags_closed in Hclosed.
    destruct (existsb holds_non_object (json_files rt files)) eqn:Hbad;
      [done|].
    assert (∀ fname data, (fname, Ok data) ∈ files →
              is_json_file rt fname = true → ∃ ms, data = JObj ms) as Hobj.
    { intros fname data Hin Hj. destruct data; eauto; exfalso;
        (assert (existsb holds_non_object (json_files rt files) = true)
           as Hsome; [|congruence]);
        apply non_object_file; eexists _, _; split_and!; done. }
    split.
    + intros Hrank. right. split; [done|].
      destruct c as [|kv c]; [done|].
      split; [intros E; by apply Hempty in E|].
      unfold rank in Hrank.
      destruct (py_int rt limit) as [n|e']; simpl in Hrank; [done|].
      by injection Hrank as ->.
    + intros [(_ & fname & data & Hin & Hj & Hno)|(_ & Hobs & Hint)].
      * destruct (Hobj fname data Hin Hj) as [ms ->]. exfalso. by eapply Hno.
      * destruct c as [|kv c]; [by destruct Hobs; apply Hempty|].
        unfold rank. by rewrite Hint.
  - rewrite count_tags_closed in Hc.
    destruct (existsb holds_non_object (json_files rt files)) eqn:Hbad;
      [|done].
    injection Hc as <-. apply non_object_file in Hbad.
    split.
    + intros [= <-]. by left.
    + intros [[-> _]|(Hobj & _)]; [done|].
      destruct Hbad as (fname & data & Hin & Hj & Hno).
      destruct (Hobj fname data Hin Hj) as [ms ->]. exfalso. by eapply Hno.
Qed.

Lemma popular_tags_failures_witness :
  compute_popular_tags plain_runtime
    (Some [(lit "1.json", Ok (JObj [(lit "tag1", JStr (lit "x"))]))])
    (PFloat (Raise OverflowError))
  = Raise OverflowError.
Proof.
  apply (popular_tags_failures plain_runtime
           [(lit "1.json", Ok (JObj [(lit "tag1", JStr (lit "x"))]))]
           (PFloat (Raise OverflowError)) OverflowError).
  right. split_and!.
  - intros fname data [[= -> ->]|H]%elem_of_cons _; [eauto|].
    by apply elem_of_nil in H.
  - discriminate.
  - reflexivity.
Defined.
